(** * Spark driver integration (sentry_sdk/integrations/spark/spark_driver.py)

    A shallow embedding of the driver-side bridge between the Spark
    listener bus and the Sentry reporting client, together with the
    properties of the listener callbacks, the activation routine, the
    patched initialiser and the event processor.

    Python values live in a heap of dict objects, so that the in-place
    mutation of the event by [process_event] and the identity of the
    object it returns are part of the model.  Everything that can raise
    (py4j calls into the JVM, attribute reads on a stopped context,
    method lookups on non-dict values) runs in a state-and-exception
    monad whose state survives a raised exception, as in Python. *)

From stdpp Require Import gmap strings list fin_maps pretty.

Open Scope string_scope.

(** ** Python values, objects and exceptions *)

Definition loc := positive.

Inductive val :=
| VNone
| VStr (s : string)
| VInt (z : Z)
| VRef (l : loc).

Inductive obj :=
| ODict (d : gmap string val)
| OList (xs : list val).

(** The exception classes that occur.  [Py4JJavaError] wraps an exception
    thrown on the JVM side and carries its Java class name;
    [Py4JNetworkError] is py4j's transport fault.  Both derive from
    [Py4JError], but neither derives from the other. *)
Inductive exn :=
| AttributeError
| KeyError
| TypeError
| Py4JError
| Py4JJavaError (java_exception : string)
| Py4JNetworkError
| Exception (name : string).

(** [isinstance(e, Py4JJavaError)], the test of [except Py4JJavaError]. *)
Definition isinstance_Py4JJavaError (e : exn) : bool :=
  match e with
  | Py4JJavaError _ => true
  | _ => false
  end.

Inductive outcome (A : Type) :=
| Ok (a : A)
| Raise (e : exn).
Arguments Ok {A} a.
Arguments Raise {A} e.

(** ** Proxies of the engine objects

    Every accessor of a py4j proxy is a call into the JVM and may raise;
    a proxy is described by the outcome of each of its accessors. *)

(** A Scala [Option[String]] seen through py4j. *)
Record JavaOption := { JavaOption_get : outcome string }.

(** [None.get] throws [java.util.NoSuchElementException] on the JVM,
    which reaches Python as a [Py4JJavaError]. *)
Definition empty_option_signal : exn :=
  Py4JJavaError "java.util.NoSuchElementException".

Definition JavaOption_none : JavaOption :=
  {| JavaOption_get := Raise empty_option_signal |}.

Definition JavaOption_some (r : string) : JavaOption :=
  {| JavaOption_get := Ok r |}.

Record StageInfo := {
  StageInfo_stageId : outcome Z;
  StageInfo_attemptId : outcome Z;
  StageInfo_name : outcome string;
  StageInfo_failureReason : outcome JavaOption
}.

Record JobStart := { JobStart_jobId : outcome Z }.

(** [JobEnd_jobResult] stands for [jobEnd.jobResult().toString()]. *)
Record JobEnd := {
  JobEnd_jobId : outcome Z;
  JobEnd_jobResult : outcome string
}.

Record StageSubmitted := { StageSubmitted_stageInfo : outcome StageInfo }.

Record StageCompleted := { StageCompleted_stageInfo : outcome StageInfo }.

(** The Spark context as the driver sees it.  [conf_get k] is
    [sc._conf.get(k)].  The last three fields are the outcomes of the
    gateway and JVM calls made on behalf of this context. *)
Record SparkContext := {
  sc_id : nat;
  sparkUser : outcome val;
  conf_get : string → outcome val;
  version : outcome val;
  appName : outcome val;
  applicationId : outcome val;
  master : outcome val;
  sparkHome : outcome val;
  uiWebUrl : outcome val;
  ensure_callback_server_started : outcome unit;
  addSparkListener : outcome unit;
  setLocalProperty : outcome unit
}.

(** ** The world the integration acts on *)

Record Breadcrumb := {
  level : string;
  message : string;
  data : option (gmap string val)
}.

(** The two listener classes of the module. *)
Inductive Listener := SparkListener | SentryListener.

(** An event processor registered on the scope: the closure
    [process_event] with the context it captured. *)
Inductive EventProcessor := process_event_closure (sc : SparkContext).

Record World := {
  heap : gmap loc obj;
  (** [sentry_sdk.get_client().get_integration(SparkIntegration) is not None] *)
  integration_enabled : bool;
  (** [SparkContext._active_spark_context] *)
  active_spark_context : option SparkContext;
  (** listeners on the bus, each with the context it was added to *)
  spark_listeners : list (nat * Listener);
  (** the engine's local (worker-visible) properties *)
  local_properties : gmap string val;
  (** every [setLocalProperty] call made so far, oldest first *)
  property_writes : list (string * val);
  (** the isolation scope's event processors, in registration order *)
  event_processors : list EventProcessor;
  (** breadcrumbs in arrival order *)
  breadcrumbs : list Breadcrumb
}.

Definition set_heap (h : gmap loc obj) (w : World) : World :=
  {| heap := h;
     integration_enabled := integration_enabled w;
     active_spark_context := active_spark_context w;
     spark_listeners := spark_listeners w;
     local_properties := local_properties w;
     property_writes := property_writes w;
     event_processors := event_processors w;
     breadcrumbs := breadcrumbs w |}.

Definition push_listener (x : nat * Listener) (w : World) : World :=
  {| heap := heap w;
     integration_enabled := integration_enabled w;
     active_spark_context := active_spark_context w;
     spark_listeners := spark_listeners w ++ [x];
     local_properties := local_properties w;
     property_writes := property_writes w;
     event_processors := event_processors w;
     breadcrumbs := breadcrumbs w |}.

Definition write_property (k : string) (v : val) (w : World) : World :=
  {| heap := heap w;
     integration_enabled := integration_enabled w;
     active_spark_context := active_spark_context w;
     spark_listeners := spark_listeners w;
     local_properties := <[k := v]> (local_properties w);
     property_writes := property_writes w ++ [(k, v)];
     event_processors := event_processors w;
     breadcrumbs := breadcrumbs w |}.

Definition push_processor (p : EventProcessor) (w : World) : World :=
  {| heap := heap w;
     integration_enabled := integration_enabled w;
     active_spark_context := active_spark_context w;
     spark_listeners := spark_listeners w;
     local_properties := local_properties w;
     property_writes := property_writes w;
     event_processors := event_processors w ++ [p];
     breadcrumbs := breadcrumbs w |}.

Definition push_breadcrumb (b : Breadcrumb) (w : World) : World :=
  {| heap := heap w;
     integration_enabled := integration_enabled w;
     active_spark_context := active_spark_context w;
     spark_listeners := spark_listeners w;
     local_properties := local_properties w;
     property_writes := property_writes w;
     event_processors := event_processors w;
     breadcrumbs := breadcrumbs w ++ [b] |}.

(** ** The state-and-exception monad *)

Definition M (A : Type) : Type := World → outcome A * World.

Definition ret {A} (a : A) : M A := fun w => (Ok a, w).

Definition raise {A} (e : exn) : M A := fun w => (Raise e, w).

Definition bind {A B} (m : M A) (k : A → M B) : M B :=
  fun w =>
    match m w with
    | (Ok a, w') => k a w'
    | (Raise e, w') => (Raise e, w')
    end.

Notation "x <- c1 ;; c2" := (bind c1 (fun x => c2))
  (at level 100, c1 at next level, right associativity).
Notation "c1 ;; c2" := (bind c1 (fun _ => c2))
  (at level 100, right associativity).

(** A call whose outcome the environment fixes. *)
Definition call {A} (r : outcome A) : M A := fun w => (r, w).

Definition get_world : M World := fun w => (Ok w, w).

Definition modify (f : World → World) : M unit := fun w => (Ok tt, f w).

(** *** [try: ... except C: ...] over local variables

    The [try] body and the handler are sequences of statements acting on
    the local variables [L].  A statement that raises leaves the locals
    as the statements before it left them. *)

Fixpoint run_stmts {L} (stmts : list (L → M L)) (l : L) (w : World)
  : L * option exn * World :=
  match stmts with
  | [] => (l, None, w)
  | s :: rest =>
      match s l w with
      | (Ok l', w') => run_stmts rest l' w'
      | (Raise e, w') => (l, Some e, w')
      end
  end.

Definition block {L} (stmts : list (L → M L)) (l : L) : M L :=
  fun w =>
    match run_stmts stmts l w with
    | (l', None, w') => (Ok l', w')
    | (_, Some e, w') => (Raise e, w')
    end.

Definition try_except {L} (body : list (L → M L)) (catches : exn → bool)
    (handler : list (L → M L)) (l : L) : M L :=
  fun w =>
    match run_stmts body l w with
    | (l', None, w') => (Ok l', w')
    | (l', Some e, w') =>
        if catches e then block handler l' w' else (Raise e, w')
    end.

(** ** Reporting client *)

(** Modelled from the spec: [sentry_sdk.add_breadcrumb] is not part of
    this module; the breadcrumb trail is append-only and ordered by
    callback arrival. *)
Definition add_breadcrumb (lvl msg : string) (d : option (gmap string val))
  : M unit :=
  modify (push_breadcrumb {| level := lvl; message := msg; data := d |}).

(** ** [_set_app_properties] *)

Definition SparkContext_setLocalProperty (sc : SparkContext) (k : string)
    (v : val) : M unit :=
  call (setLocalProperty sc);;
  modify (write_property k v).

Definition _set_app_properties : M unit :=
  w <- get_world;;
  match active_spark_context w with
  | Some spark_context =>
      a <- call (appName spark_context);;
      SparkContext_setLocalProperty spark_context "sentry_app_name" a;;
      i <- call (applicationId spark_context);;
      SparkContext_setLocalProperty spark_context "sentry_application_id" i
  | None => ret tt
  end.

(** ** [SentryListener] *)

(** ["Job {} Started".format(n)] and its siblings. *)
Definition format (before : string) (n : Z) (after : string) : string :=
  before +:+ pretty n +:+ after.

Definition onJobStart (jobStart : JobStart) : M unit :=
  j <- call (JobStart_jobId jobStart);;
  let message := format "Job " j " Started" in
  add_breadcrumb "info" message None;;
  _set_app_properties.

Definition onJobEnd (jobEnd : JobEnd) : M unit :=
  r <- call (JobEnd_jobResult jobEnd);;
  let data : gmap string val := {[ "result" := VStr r ]} in
  r' <- call (JobEnd_jobResult jobEnd);;
  lm <- (if String.eqb r' "JobSucceeded"
         then j <- call (JobEnd_jobId jobEnd);;
              ret ("info", format "Job " j " Ended")
         else j <- call (JobEnd_jobId jobEnd);;
              ret ("warning", format "Job " j " Failed"));;
  add_breadcrumb (fst lm) (snd lm) (Some data).

Definition stage_data (a : Z) (n : string) : gmap string val :=
  <[ "attemptId" := VInt a ]> {[ "name" := VStr n ]}.

Definition onStageSubmitted (stageSubmitted : StageSubmitted) : M unit :=
  stage_info <- call (StageSubmitted_stageInfo stageSubmitted);;
  s <- call (StageInfo_stageId stage_info);;
  let message := format "Stage " s " Submitted" in
  a <- call (StageInfo_attemptId stage_info);;
  n <- call (StageInfo_name stage_info);;
  add_breadcrumb "info" message (Some (stage_data a n));;
  _set_app_properties.

(** The local variables of [onStageCompleted]. *)
Record StageLocals := {
  l_message : string;
  l_level : string;
  l_data : gmap string val
}.

Definition onStageCompleted (stageCompleted : StageCompleted) : M unit :=
  stage_info <- call (StageCompleted_stageInfo stageCompleted);;
  a <- call (StageInfo_attemptId stage_info);;
  n <- call (StageInfo_name stage_info);;
  l <- try_except
         [ (fun l =>
              o <- call (StageInfo_failureReason stage_info);;
              r <- call (JavaOption_get o);;
              ret {| l_message := l_message l; l_level := l_level l;
                     l_data := <[ "reason" := VStr r ]> (l_data l) |});
           (fun l =>
              s <- call (StageInfo_stageId stage_info);;
              ret {| l_message := format "Stage " s " Failed";
                     l_level := l_level l; l_data := l_data l |});
           (fun l =>
              ret {| l_message := l_message l; l_level := "warning";
                     l_data := l_data l |}) ]
         isinstance_Py4JJavaError
         [ (fun l =>
              s <- call (StageInfo_stageId stage_info);;
              ret {| l_message := format "Stage " s " Completed";
                     l_level := l_level l; l_data := l_data l |});
           (fun l =>
              ret {| l_message := l_message l; l_level := "info";
                     l_data := l_data l |}) ]
         {| l_message := ""; l_level := ""; l_data := stage_data a n |};;
  add_breadcrumb (l_level l) (l_message l) (Some (l_data l)).

(** ** Dict operations on the heap *)

(** The display [{}]: a new empty dict object. *)
Definition new_dict : M val :=
  fun w =>
    let l := fresh (dom (heap w)) in
    (Ok (VRef l), set_heap (<[l := ODict ∅]> (heap w)) w).

(** Looking up the bound method [o.setdefault]: only dict objects have
    it.  The result is the dict the method is bound to. *)
Definition getattr_setdefault (o : val) : M loc :=
  w <- get_world;;
  match o with
  | VRef l =>
      match heap w !! l with
      | Some (ODict _) => ret l
      | _ => raise AttributeError
      end
  | _ => raise AttributeError
  end.

(** [dict.setdefault(k, default)] on the dict at [l].  The method was
    looked up on a dict, so the last branch is never taken. *)
Definition dict_setdefault (l : loc) (k : string) (default : val) : M val :=
  w <- get_world;;
  match heap w !! l with
  | Some (ODict d) =>
      match d !! k with
      | Some v => ret v
      | None =>
          modify (set_heap (<[l := ODict (<[k := default]> d)]> (heap w)));;
          ret default
      end
  | _ => raise AttributeError
  end.

(** The call expression [o.setdefault(k, arg)]: Python evaluates [o],
    looks the method up, evaluates the argument, then calls. *)
Definition call_setdefault (o : M val) (k : string) (arg : M val) : M val :=
  o' <- o;;
  f <- getattr_setdefault o';;
  a <- arg;;
  dict_setdefault f k a.

(** The subscription [o[k]]. *)
Definition getitem (o : val) (k : string) : M val :=
  w <- get_world;;
  match o with
  | VRef l =>
      match heap w !! l with
      | Some (ODict d) =>
          match d !! k with
          | Some v => ret v
          | None => raise KeyError
          end
      | _ => raise TypeError
      end
  | _ => raise TypeError
  end.

(** ** [_start_sentry_listener] *)

Definition _start_sentry_listener (sc : SparkContext) : M unit :=
  call (ensure_callback_server_started sc);;
  let listener := SentryListener in
  call (addSparkListener sc);;
  modify (push_listener (sc_id sc, listener)).

(** ** [_add_event_processor] and [process_event] *)

(** How a block of statements ends: by running off its end or by a
    [return]. *)
Inductive completion :=
| Fallthrough
| Return (v : val).

(** Modelled from the spec: [capture_internal_exceptions] lives in
    [sentry_sdk.utils], outside this module.  Any failure inside the
    block is caught and contained locally, so its [__exit__] suppresses
    every exception. *)
Definition capture_internal_exceptions (e : exn) : bool := true.

(** [with cm: body], where [cm_exit e] says whether the context manager
    suppresses [e].  After a suppressed exception control continues
    behind the block; the state is the one the block had reached. *)
Definition with_ (cm_exit : exn → bool) (body : M completion)
  : M completion :=
  fun w =>
    match body w with
    | (Ok c, w') => (Ok c, w')
    | (Raise e, w') =>
        if cm_exit e then (Ok Fallthrough, w') else (Raise e, w')
    end.

(** The block under [with capture_internal_exceptions()]. *)
Definition process_event_body (sc : SparkContext) (event : loc)
  : M completion :=
  w <- get_world;;
  if negb (integration_enabled w) then ret (Return (VRef event)) else
  match active_spark_context w with
  | None => ret (Return (VRef event))
  | Some _ =>
      call_setdefault
        (call_setdefault (ret (VRef event)) "user" new_dict)
        "id" (call (sparkUser sc));;
      call_setdefault
        (call_setdefault (ret (VRef event)) "tags" new_dict)
        "executor.id" (call (conf_get sc "spark.executor.id"));;
      call_setdefault (getitem (VRef event) "tags")
        "spark-submit.deployMode"
        (call (conf_get sc "spark.submit.deployMode"));;
      call_setdefault (getitem (VRef event) "tags")
        "driver.host" (call (conf_get sc "spark.driver.host"));;
      call_setdefault (getitem (VRef event) "tags")
        "driver.port" (call (conf_get sc "spark.driver.port"));;
      call_setdefault (getitem (VRef event) "tags")
        "spark_version" (call (version sc));;
      call_setdefault (getitem (VRef event) "tags")
        "app_name" (call (appName sc));;
      call_setdefault (getitem (VRef event) "tags")
        "application_id" (call (applicationId sc));;
      call_setdefault (getitem (VRef event) "tags")
        "master" (call (master sc));;
      call_setdefault (getitem (VRef event) "tags")
        "spark_home" (call (sparkHome sc));;
      call_setdefault
        (call_setdefault (ret (VRef event)) "extra" new_dict)
        "web_url" (call (uiWebUrl sc));;
      ret Fallthrough
  end.

Definition process_event (sc : SparkContext) (event : loc) (hint : val)
  : M val :=
  c <- with_ capture_internal_exceptions (process_event_body sc event);;
  match c with
  | Return v => ret v
  | Fallthrough => ret (VRef event)
  end.

(** Modelled from the spec: the scope's [add_event_processor] belongs to
    the reporting client; it registers the hook on the current scope. *)
Definition _add_event_processor (sc : SparkContext) : M unit :=
  modify (push_processor (process_event_closure sc)).

(** ** [_activate_integration] *)

Definition _activate_integration (sc : SparkContext) : M unit :=
  _start_sentry_listener sc;;
  _set_app_properties;;
  _add_event_processor sc.

(** ** [_patch_spark_context_init] *)

(** Modelled from the spec: [ensure_integration_enabled] lives in
    [sentry_sdk.utils].  When the integration is not enabled the wrapper
    is a pass-through to the original function. *)
Definition ensure_integration_enabled {A} (original patched : M A) : M A :=
  w <- get_world;;
  if integration_enabled w then patched else original.

Section PatchedInit.
(** The original [SparkContext._do_init], whatever it does. *)
Variable spark_context_init : SparkContext → list val → M val.

Definition _sentry_patched_spark_context_init (self : SparkContext)
    (args : list val) : M val :=
  ensure_integration_enabled
    (spark_context_init self args)
    (rv <- spark_context_init self args;;
     _activate_integration self;;
     ret rv).
End PatchedInit.

(** ** The listener bus *)

(** Dispatch of a job-end event to a listener: [SparkListener] has the
    empty method, [SentryListener] overrides it. *)
Definition Listener_onJobEnd (l : Listener) (jobEnd : JobEnd) : M unit :=
  match l with
  | SparkListener => ret tt
  | SentryListener => onJobEnd jobEnd
  end.

Fixpoint for_each {A} (f : A → M unit) (xs : list A) : M unit :=
  match xs with
  | [] => ret tt
  | x :: rest => f x;; for_each f rest
  end.

(** The listeners registered on the bus of context [sc]. *)
Definition listeners_of (sc : SparkContext) (w : World) : list Listener :=
  snd <$> filter (λ x, fst x = sc_id sc) (spark_listeners w).

(** The engine posts one job-end event of [sc]: every listener on its
    bus gets the callback. *)
Definition post_job_end (sc : SparkContext) (jobEnd : JobEnd) : M unit :=
  w <- get_world;;
  for_each (fun l => Listener_onJobEnd l jobEnd) (listeners_of sc w).

(** ** Reading a report *)

(** The value of the report at [event[g][k]], when there is one. *)
Definition report_field (w : World) (event : loc) (g k : string)
  : option val :=
  match heap w !! event with
  | Some (ODict d) =>
      match d !! g with
      | Some (VRef l) =>
          match heap w !! l with
          | Some (ODict d') => d' !! k
          | _ => None
          end
      | _ => None
      end
  | _ => None
  end.

(** Every dict of [h] is a dict of [h'] with at least the same items. *)
Definition heap_extends (h h' : gmap loc obj) : Prop :=
  ∀ l d, h !! l = Some (ODict d) →
    ∃ d', h' !! l = Some (ODict d') ∧ d ⊆ d'.

(** The heap only grows under [m]. *)
Definition monotone {A} (m : M A) : Prop :=
  ∀ w, heap_extends (heap w) (heap (snd (m w))).

(** The failure-reason read of [onStageCompleted],
    [stage_info.failureReason().get()]. *)
Definition failure_reason_read (si : StageInfo) : outcome string :=
  match StageInfo_failureReason si with
  | Ok o => JavaOption_get o
  | Raise e => Raise e
  end.

(** How many listeners of a list are [SentryListener]s. *)
Fixpoint sentry_count (ls : list Listener) : nat :=
  match ls with
  | [] => 0
  | SentryListener :: rest => S (sentry_count rest)
  | SparkListener :: rest => sentry_count rest
  end.

(** The reads and writes of [_set_app_properties] go through: there is
    no active context, or its name and id can be read and its
    properties set. *)
Definition propagation_ok (w : World) : Prop :=
  match active_spark_context w with
  | None => True
  | Some c =>
      (∃ a, appName c = Ok a) ∧ (∃ i, applicationId c = Ok i)
      ∧ setLocalProperty c = Ok tt
  end.

(** ** The enrichment statements, listed

    The eleven statements of the guarded block have two shapes:
    [event.setdefault(g, {}).setdefault(k, read)] and
    [event[g].setdefault(k, read)]. *)

Inductive StmtShape := ViaSetdefault | ViaGetitem.

Record FieldStmt := {
  fs_shape : StmtShape;
  fs_group : string;
  fs_key : string;
  fs_read : outcome val
}.

Definition run_field_stmt (event : loc) (f : FieldStmt) : M val :=
  match fs_shape f with
  | ViaSetdefault =>
      call_setdefault
        (call_setdefault (ret (VRef event)) (fs_group f) new_dict)
        (fs_key f) (call (fs_read f))
  | ViaGetitem =>
      call_setdefault (getitem (VRef event) (fs_group f))
        (fs_key f) (call (fs_read f))
  end.

(** The statements in order, then [k]. *)
Fixpoint run_field_stmts {A} (event : loc) (fs : list FieldStmt) (k : M A)
  : M A :=
  match fs with
  | [] => k
  | f :: rest => run_field_stmt event f;; run_field_stmts event rest k
  end.

(** Lines 66 to 83 of the source, in order. *)
Definition enrichment_stmts (sc : SparkContext) : list FieldStmt :=
  [ {| fs_shape := ViaSetdefault; fs_group := "user"; fs_key := "id";
       fs_read := sparkUser sc |};
    {| fs_shape := ViaSetdefault; fs_group := "tags";
       fs_key := "executor.id";
       fs_read := conf_get sc "spark.executor.id" |};
    {| fs_shape := ViaGetitem; fs_group := "tags";
       fs_key := "spark-submit.deployMode";
       fs_read := conf_get sc "spark.submit.deployMode" |};
    {| fs_shape := ViaGetitem; fs_group := "tags"; fs_key := "driver.host";
       fs_read := conf_get sc "spark.driver.host" |};
    {| fs_shape := ViaGetitem; fs_group := "tags"; fs_key := "driver.port";
       fs_read := conf_get sc "spark.driver.port" |};
    {| fs_shape := ViaGetitem; fs_group := "tags"; fs_key := "spark_version";
       fs_read := version sc |};
    {| fs_shape := ViaGetitem; fs_group := "tags"; fs_key := "app_name";
       fs_read := appName sc |};
    {| fs_shape := ViaGetitem; fs_group := "tags";
       fs_key := "application_id"; fs_read := applicationId sc |};
    {| fs_shape := ViaGetitem; fs_group := "tags"; fs_key := "master";
       fs_read := master sc |};
    {| fs_shape := ViaGetitem; fs_group := "tags"; fs_key := "spark_home";
       fs_read := sparkHome sc |};
    {| fs_shape := ViaSetdefault; fs_group := "extra"; fs_key := "web_url";
       fs_read := uiWebUrl sc |} ].

(** The three groups of a report that enrichment fills. *)
Definition report_groups : list string := ["user"; "tags"; "extra"].

(** The item [k] of the object at [l], when that is a dict with such an
    item. *)
Definition lookup2 (h : gmap loc obj) (l : loc) (k : string) : option val :=
  match h !! l with
  | Some (ODict d) => d !! k
  | _ => None
  end.

Definition is_dict (h : gmap loc obj) (l : loc) : Prop :=
  ∃ d, h !! l = Some (ODict d).

(** The report has a dict under [g]. *)
Definition group_present (h : gmap loc obj) (event : loc) (g : string)
  : Prop :=
  ∃ l, lookup2 h event g = Some (VRef l) ∧ is_dict h l.

(** The report has nothing under [g], or a dict. *)
Definition group_ok (h : gmap loc obj) (event : loc) (g : string) : Prop :=
  lookup2 h event g = None ∨ group_present h event g.

(** A report as the reporting client hands it over: a dict whose
    [user], [tags] and [extra], where present, are dicts. *)
Definition report_ok (w : World) (event : loc) : Prop :=
  is_dict (heap w) event
  ∧ ∀ g, g ∈ report_groups → group_ok (heap w) event g.

(** Only items under the keys [K] change. *)
Definition writes_only {A} (K : list string) (m : M A) : Prop :=
  ∀ w l k, k ∉ K →
    lookup2 (heap (snd (m w))) l k = lookup2 (heap w) l k.

(** A statement reading a group through [event[g]] comes after one that
    made sure the group is there; [P] lists the groups known present. *)
Fixpoint ordered (P : list string) (fs : list FieldStmt) : Prop :=
  match fs with
  | [] => True
  | f :: rest =>
      (fs_shape f = ViaGetitem → fs_group f ∈ P)
      ∧ ordered (fs_group f :: P) rest
  end.

Definition read_ok (f : FieldStmt) : Prop := ∃ v, fs_read f = Ok v.

(** The two halves of a statement: the expression that yields the
    group, and the [setdefault] call on what it yielded. *)
Definition group_of (event : loc) (f : FieldStmt) : M val :=
  match fs_shape f with
  | ViaSetdefault => call_setdefault (ret (VRef event)) (fs_group f) new_dict
  | ViaGetitem => getitem (VRef event) (fs_group f)
  end.

Definition setdefault_on (o : val) (k : string) (read : outcome val) : M val :=
  f <- getattr_setdefault o;;
  a <- call read;;
  dict_setdefault f k a.

(** The report's item under [g] is as it was, or was missing and is now
    a dict that did not exist before. *)
Definition group_entry_kept (h h' : gmap loc obj) (event : loc) (g : string)
  : Prop :=
  lookup2 h' event g = lookup2 h event g
  ∨ (lookup2 h event g = None
     ∧ ∃ lf, h !! lf = None ∧ lookup2 h' event g = Some (VRef lf)
             ∧ is_dict h' lf).

(** Every statement fills a key of one of the three groups, the keys
    are pairwise different, and none of them is the name of a group. *)
Definition stmts_wf (fs : list FieldStmt) : Prop :=
  Forall (λ f, fs_group f ∈ report_groups ∧ fs_key f ∉ report_groups) fs
  ∧ NoDup (fs_key <$> fs).

(** What the statements rely on: the report is a dict, its three groups
    are missing or dicts, and the groups in [P] are there. *)
Definition stmts_inv (P : list string) (event : loc) (w : World) : Prop :=
  is_dict (heap w) event
  ∧ (∀ g, g ∈ report_groups → group_ok (heap w) event g)
  ∧ (∀ g, g ∈ P → group_present (heap w) event g).

(** ** Example inputs *)

Definition demo_conf (k : string) : outcome val :=
  if String.eqb k "spark.executor.id" then Ok (VStr "driver")
  else if String.eqb k "spark.submit.deployMode" then Ok (VStr "client")
  else if String.eqb k "spark.driver.host" then Ok (VStr "10.0.0.1")
  else if String.eqb k "spark.driver.port" then Ok (VStr "7077")
  else Ok VNone.

(** A running context whose application name is ["Y"]. *)
Definition demo_sc : SparkContext :=
  {| sc_id := 1;
     sparkUser := Ok (VStr "alice");
     conf_get := demo_conf;
     version := Ok (VStr "3.5.0");
     appName := Ok (VStr "Y");
     applicationId := Ok (VStr "app-42");
     master := Ok (VStr "local[*]");
     sparkHome := Ok VNone;
     uiWebUrl := Ok (VStr "http://10.0.0.1:4040");
     ensure_callback_server_started := Ok tt;
     addSparkListener := Ok tt;
     setLocalProperty := Ok tt |}.

(** The same context torn down after its user was read: every later
    read goes through the dropped JVM handle. *)
Definition torn_sc : SparkContext :=
  {| sc_id := 1;
     sparkUser := Ok (VStr "alice");
     conf_get := fun _ => Raise AttributeError;
     version := Raise AttributeError;
     appName := Ok (VStr "Y");
     applicationId := Raise AttributeError;
     master := Ok (VStr "local[*]");
     sparkHome := Ok VNone;
     uiWebUrl := Raise AttributeError;
     ensure_callback_server_started := Ok tt;
     addSparkListener := Raise Py4JNetworkError;
     setLocalProperty := Raise Py4JNetworkError |}.

(** A world with the integration enabled, [demo_sc] active, and at
    location 1 a report with the given items. *)
Definition demo_world (report : gmap string val) (more : gmap loc obj)
  : World :=
  {| heap := <[1%positive := ODict report]> more;
     integration_enabled := true;
     active_spark_context := Some demo_sc;
     spark_listeners := [];
     local_properties := ∅;
     property_writes := [];
     event_processors := [];
     breadcrumbs := [] |}.

(** An empty report. *)
Definition empty_world : World := demo_world ∅ ∅.

(** A report that already carries the tag [app_name = "X"]. *)
Definition tagged_world : World :=
  demo_world {[ "tags" := VRef 2%positive ]}
             {[ 2%positive := ODict {[ "app_name" := VStr "X" ]} ]}.

(** The empty report while no context is active. *)
Definition idle_world : World :=
  {| heap := heap empty_world;
     integration_enabled := true;
     active_spark_context := None;
     spark_listeners := [];
     local_properties := ∅;
     property_writes := [];
     event_processors := [];
     breadcrumbs := [] |}.

Definition demo_stage (fr : outcome JavaOption) : StageCompleted :=
  {| StageCompleted_stageInfo :=
       Ok {| StageInfo_stageId := Ok 3%Z;
             StageInfo_attemptId := Ok 0%Z;
             StageInfo_name := Ok "collect at job.py:10";
             StageInfo_failureReason := fr |} |}.

Definition demo_job_end : JobEnd :=
  {| JobEnd_jobId := Ok 7%Z; JobEnd_jobResult := Ok "JobSucceeded" |}.

Definition demo_init_ok (self : SparkContext) (args : list val) : M val :=
  ret VNone.

Definition demo_init_fails (self : SparkContext) (args : list val) : M val :=
  raise (Py4JJavaError "org.apache.spark.SparkException").

(** ** The listener interface

    [SparkListener] declares the twenty-four callbacks of the bus
    interface, each with the body [pass]; [SentryListener] overrides
    four of them.  A callback is the method together with the argument
    the bus passes; the arguments of the methods that ignore them are
    left out. *)

Inductive Callback :=
| OnApplicationEnd
| OnApplicationStart
| OnBlockManagerAdded
| OnBlockManagerRemoved
| OnBlockUpdated
| OnEnvironmentUpdate
| OnExecutorAdded
| OnExecutorBlacklisted
| OnExecutorBlacklistedForStage
| OnExecutorMetricsUpdate
| OnExecutorRemoved
| OnJobEnd (jobEnd : JobEnd)
| OnJobStart (jobStart : JobStart)
| OnNodeBlacklisted
| OnNodeBlacklistedForStage
| OnNodeUnblacklisted
| OnOtherEvent
| OnSpeculativeTaskSubmitted
| OnStageCompleted (stageCompleted : StageCompleted)
| OnStageSubmitted (stageSubmitted : StageSubmitted)
| OnTaskEnd
| OnTaskGettingResult
| OnTaskStart
| OnUnpersistRDD.

(** Every method of [SparkListener] is [pass]. *)
Definition SparkListener_call (c : Callback) : M unit := ret tt.

(** [SentryListener] inherits what it does not override. *)
Definition SentryListener_call (c : Callback) : M unit :=
  match c with
  | OnJobStart jobStart => onJobStart jobStart
  | OnJobEnd jobEnd => onJobEnd jobEnd
  | OnStageSubmitted stageSubmitted => onStageSubmitted stageSubmitted
  | OnStageCompleted stageCompleted => onStageCompleted stageCompleted
  | _ => SparkListener_call c
  end.

Definition Listener_call (l : Listener) (c : Callback) : M unit :=
  match l with
  | SparkListener => SparkListener_call c
  | SentryListener => SentryListener_call c
  end.

(** The callbacks [SentryListener] overrides. *)
Definition overridden (c : Callback) : bool :=
  match c with
  | OnJobStart _ | OnJobEnd _ | OnStageSubmitted _ | OnStageCompleted _ => true
  | _ => false
  end.

(** ** [_patch_spark_context_init] and [_setup_sentry_tracing]

    [SparkContext._do_init] is a class attribute that the patch
    replaces by a wrapper around its current value.  The driver state
    records how many wrappers are around the original initialiser. *)

Record Driver := {
  driver_world : World;
  do_init_patches : nat
}.

Definition with_world (w : World) (d : Driver) : Driver :=
  {| driver_world := w; do_init_patches := do_init_patches d |}.

(** [SparkContext._do_init = _sentry_patched_spark_context_init], the
    wrapper closing over the value the attribute had. *)
Definition _patch_spark_context_init (d : Driver) : Driver :=
  {| driver_world := driver_world d;
     do_init_patches := S (do_init_patches d) |}.

Definition _setup_sentry_tracing (d : Driver) : outcome unit * Driver :=
  let w := driver_world d in
  match
    match active_spark_context w with
    | Some sc => _activate_integration sc w
    | None => (Ok tt, w)
    end
  with
  | (Ok _, w') => (Ok tt, _patch_spark_context_init (with_world w' d))
  | (Raise e, w') => (Raise e, with_world w' d)
  end.

(** [SparkIntegration.setup_once]. *)
Definition setup_once (d : Driver) : outcome unit * Driver :=
  _setup_sentry_tracing d.

Section DoInit.
(** The initialiser [SparkContext._do_init] had before any patch. *)
Variable original_do_init : SparkContext → list val → M val.

(** The value of [SparkContext._do_init] after [n] patches. *)
Fixpoint patched_do_init (n : nat) : SparkContext → list val → M val :=
  match n with
  | 0 => original_do_init
  | S k => _sentry_patched_spark_context_init (patched_do_init k)
  end.

(** A call of [SparkContext._do_init] as the class has it now. *)
Definition SparkContext_do_init (self : SparkContext) (args : list val)
    (d : Driver) : outcome val * Driver :=
  match patched_do_init (do_init_patches d) self args (driver_world d) with
  | (r, w') => (r, with_world w' d)
  end.
End DoInit.

(** ** Further notions for the properties *)

(** Nothing but the heap differs between [w] and [w']. *)
Definition same_outside_heap (w w' : World) : Prop :=
  w' = set_heap (heap w') w.

(** Between [w] and [w'] breadcrumbs were appended and properties
    written, and nothing else happened. *)
Definition only_crumbs_and_properties (w w' : World) : Prop :=
  heap w' = heap w
  ∧ integration_enabled w' = integration_enabled w
  ∧ active_spark_context w' = active_spark_context w
  ∧ spark_listeners w' = spark_listeners w
  ∧ event_processors w' = event_processors w
  ∧ breadcrumbs w `prefix_of` breadcrumbs w'
  ∧ property_writes w `prefix_of` property_writes w'.

(** A value that has no [setdefault]: [None], a string, a number, or a
    reference to an object that is not a dict. *)
Definition not_a_dict (h : gmap loc obj) (v : val) : Prop :=
  match v with
  | VRef l => ∃ xs, h !! l = Some (OList xs)
  | _ => True
  end.

(** The objects that are not dicts stay as they are under [m]. *)
Definition keeps_lists {A} (m : M A) : Prop :=
  ∀ w l xs, heap w !! l = Some (OList xs) →
    heap (snd (m w)) !! l = Some (OList xs).

(** A report whose [tags] came as a list of pairs. *)
Definition list_tags_world : World :=
  demo_world {[ "tags" := VRef 2%positive ]}
             {[ 2%positive := OList [VStr "env"; VStr "prod"] ]}.

(** A context whose application id cannot be read. *)
Definition no_id_sc : SparkContext :=
  {| sc_id := 2;
     sparkUser := Ok (VStr "alice");
     conf_get := demo_conf;
     version := Ok (VStr "3.5.0");
     appName := Ok (VStr "Y");
     applicationId := Raise (Py4JJavaError "java.lang.IllegalStateException");
     master := Ok (VStr "local[*]");
     sparkHome := Ok VNone;
     uiWebUrl := Ok (VStr "http://10.0.0.1:4040");
     ensure_callback_server_started := Ok tt;
     addSparkListener := Ok tt;
     setLocalProperty := Ok tt |}.

(** [empty_world] with [no_id_sc] as the active context. *)
Definition no_id_world : World :=
  {| heap := heap empty_world;
     integration_enabled := true;
     active_spark_context := Some no_id_sc;
     spark_listeners := [];
     local_properties := ∅;
     property_writes := [];
     event_processors := [];
     breadcrumbs := [] |}.

(** A report whose [user] is [None]. *)
Definition none_user_world : World := demo_world {[ "user" := VNone ]} ∅.

(** A driver in which nothing is patched yet and, in turn, no context
    runs, [demo_sc] runs, or [no_id_sc] runs. *)
Definition idle_driver : Driver :=
  {| driver_world := idle_world; do_init_patches := 0 |}.

Definition demo_driver : Driver :=
  {| driver_world := empty_world; do_init_patches := 0 |}.

Definition no_id_driver : Driver :=
  {| driver_world := no_id_world; do_init_patches := 0 |}.

(** A world in which the integration is switched off. *)
Definition disabled_world : World :=
  {| heap := heap empty_world;
     integration_enabled := false;
     active_spark_context := Some demo_sc;
     spark_listeners := [];
     local_properties := ∅;
     property_writes := [];
     event_processors := [];
     breadcrumbs := [] |}.

(** * Properties *)

(** ** Listener callbacks *)

(** The spec's two job-end examples, run on the model. *)
Example onJobEnd_7_succeeded :
  onJobEnd demo_job_end empty_world
  = (Ok tt,
     push_breadcrumb
       {| level := "info"; message := "Job 7 Ended";
          data := Some {[ "result" := VStr "JobSucceeded" ]} |}
       empty_world).
Proof. reflexivity. Qed.

Example onJobEnd_7_failed :
  onJobEnd {| JobEnd_jobId := Ok 7%Z; JobEnd_jobResult := Ok "JobFailed" |}
    empty_world
  = (Ok tt,
     push_breadcrumb
       {| level := "warning"; message := "Job 7 Failed";
          data := Some {[ "result" := VStr "JobFailed" ]} |}
       empty_world).
Proof. reflexivity. Qed.

(** The two callbacks that also propagate the application identity. *)
Example onJobStart_7 :
  onJobStart {| JobStart_jobId := Ok 7%Z |} empty_world
  = (Ok tt,
     write_property "sentry_application_id" (VStr "app-42")
       (write_property "sentry_app_name" (VStr "Y")
          (push_breadcrumb
             {| level := "info"; message := "Job 7 Started"; data := None |}
             empty_world))).
Proof. reflexivity. Qed.

Example onStageSubmitted_3 :
  onStageSubmitted
    {| StageSubmitted_stageInfo :=
         Ok {| StageInfo_stageId := Ok 3%Z; StageInfo_attemptId := Ok 0%Z;
               StageInfo_name := Ok "collect at job.py:10";
               StageInfo_failureReason := Ok JavaOption_none |} |}
    empty_world
  = (Ok tt,
     write_property "sentry_application_id" (VStr "app-42")
       (write_property "sentry_app_name" (VStr "Y")
          (push_breadcrumb
             {| level := "info"; message := "Stage 3 Submitted";
                data := Some {[ "attemptId" := VInt 0;
                                "name" := VStr "collect at job.py:10" ]} |}
             empty_world))).
Proof. reflexivity. Qed.

(** C3.  For every job id and job result, [onJobEnd] appends exactly one
    breadcrumb, whose data is [{result: jobResult}]; the breadcrumb has
    level info and message "Job {jobId} Ended" exactly when the result is
    "JobSucceeded", and has level warning and message "Job {jobId} Failed"
    in every other case. *)
Theorem onJobEnd_emits_one_breadcrumb (j : Z) (r : string) (w : World) :
  ∃ b : Breadcrumb,
    onJobEnd {| JobEnd_jobId := Ok j; JobEnd_jobResult := Ok r |} w
      = (Ok tt, push_breadcrumb b w)
    ∧ data b = Some {[ "result" := VStr r ]}
    ∧ ((level b = "info" ∧ message b = "Job " +:+ pretty j +:+ " Ended")
       ↔ r = "JobSucceeded")
    ∧ (r ≠ "JobSucceeded" →
       level b = "warning" ∧ message b = "Job " +:+ pretty j +:+ " Failed").
Proof.
  unfold onJobEnd, bind, call; simpl.
  destruct (String.eqb r "JobSucceeded") eqn:E; simpl.
  - apply String.eqb_eq in E.
    eexists; split; [reflexivity|]; simpl.
    split; [reflexivity|]. split; [tauto | congruence].
  - apply String.eqb_neq in E.
    eexists; split; [reflexivity|]; simpl.
    split; [reflexivity|]. split; [|auto].
    split; [intros [? _]; discriminate | contradiction].
Qed.

(** The spec's two stage-completed examples, run on the model. *)
Example onStageCompleted_no_reason :
  onStageCompleted (demo_stage (Ok JavaOption_none)) empty_world
  = (Ok tt,
     push_breadcrumb
       {| level := "info"; message := "Stage 3 Completed";
          data := Some {[ "attemptId" := VInt 0;
                          "name" := VStr "collect at job.py:10" ]} |}
       empty_world).
Proof. reflexivity. Qed.

Example onStageCompleted_OOM :
  onStageCompleted (demo_stage (Ok (JavaOption_some "OOM"))) empty_world
  = (Ok tt,
     push_breadcrumb
       {| level := "warning"; message := "Stage 3 Failed";
          data := Some {[ "reason" := VStr "OOM";
                          "attemptId" := VInt 0;
                          "name" := VStr "collect at job.py:10" ]} |}
       empty_world).
Proof. reflexivity. Qed.

(** C4.  For every stage info, [onStageCompleted] appends exactly one
    breadcrumb.  When the failure-reason read gives the empty-option
    signal it is [{level: info, message: "Stage {stageId} Completed"}]
    and its data holds exactly [attemptId] and [name], with no [reason]
    key; when the read gives a value [r] it is [{level: warning,
    message: "Stage {stageId} Failed"}] with data [{attemptId, name,
    reason: r}]. *)
Theorem onStageCompleted_emits_one_breadcrumb
    (s a : Z) (n : string) (w : World) :
  let stage fr :=
    {| StageCompleted_stageInfo :=
         Ok {| StageInfo_stageId := Ok s; StageInfo_attemptId := Ok a;
               StageInfo_name := Ok n; StageInfo_failureReason := Ok fr |} |} in
  let d : gmap string val := {[ "attemptId" := VInt a; "name" := VStr n ]} in
  onStageCompleted (stage JavaOption_none) w
    = (Ok tt,
       push_breadcrumb
         {| level := "info";
            message := "Stage " +:+ pretty s +:+ " Completed";
            data := Some d |} w)
  ∧ dom d = {[ "attemptId"; "name" ]}
  ∧ d !! "reason" = None
  ∧ ∀ r : string,
      onStageCompleted (stage (JavaOption_some r)) w
        = (Ok tt,
           push_breadcrumb
             {| level := "warning";
                message := "Stage " +:+ pretty s +:+ " Failed";
                data := Some (<[ "reason" := VStr r ]> d) |} w)
      ∧ dom (<[ "reason" := VStr r ]> d) = {[ "attemptId"; "name"; "reason" ]}.
Proof.
  intros stage d.
  assert (Hd : dom d = {[ "attemptId"; "name" ]}).
  { subst d. rewrite dom_insert_L, dom_singleton_L. reflexivity. }
  split; [reflexivity|]. split; [exact Hd|]. split; [reflexivity|].
  intros r. split; [reflexivity|].
  rewrite dom_insert_L, Hd. set_solver.
Qed.

(** C2, as the code has it.  The handler tells the outcomes of the
    failure-reason read apart by exception type: a failure that is not a
    [Py4JJavaError] (a transport fault, say) leaves the handler as it
    was raised and no breadcrumb is added, while every [Py4JJavaError],
    whatever JVM exception it wraps, selects the completed branch. *)
Theorem onStageCompleted_catches_by_type
    (si : StageInfo) (a : Z) (n : string) (e : exn) (w : World) :
  StageInfo_attemptId si = Ok a →
  StageInfo_name si = Ok n →
  failure_reason_read si = Raise e →
  let stage := {| StageCompleted_stageInfo := Ok si |} in
  (isinstance_Py4JJavaError e = false →
     onStageCompleted stage w = (Raise e, w))
  ∧ (isinstance_Py4JJavaError e = true →
     ∀ s, StageInfo_stageId si = Ok s →
       onStageCompleted stage w
         = (Ok tt,
            push_breadcrumb
              {| level := "info";
                 message := "Stage " +:+ pretty s +:+ " Completed";
                 data := Some {[ "attemptId" := VInt a;
                                 "name" := VStr n ]} |} w)).
Proof.
  intros Ha Hn He stage.
  unfold failure_reason_read in He.
  split.
  - intros Hty.
    unfold onStageCompleted, try_except, bind, call; simpl.
    rewrite Ha, Hn; simpl. unfold bind, call.
    destruct (StageInfo_failureReason si) as [o|e'].
    + rewrite He, Hty. reflexivity.
    + injection He as ->. rewrite Hty. reflexivity.
  - intros Hty s Hs.
    unfold onStageCompleted, try_except, bind, call; simpl.
    rewrite Ha, Hn; simpl. unfold bind, call.
    destruct (StageInfo_failureReason si) as [o|e'].
    + rewrite He, Hty. unfold block; simpl. unfold bind, call.
      rewrite Hs. reflexivity.
    + injection He as ->. rewrite Hty. unfold block; simpl.
      unfold bind, call. rewrite Hs. reflexivity.
Qed.

(** A transport fault during the read leaves the handler. *)
Lemma onStageCompleted_catches_by_type_witness :
  onStageCompleted (demo_stage (Raise Py4JNetworkError)) empty_world
  = (Raise Py4JNetworkError, empty_world).
Proof.
  refine (proj1 (onStageCompleted_catches_by_type
                   {| StageInfo_stageId := Ok 3%Z;
                      StageInfo_attemptId := Ok 0%Z;
                      StageInfo_name := Ok "collect at job.py:10";
                      StageInfo_failureReason := Raise Py4JNetworkError |}
                   0%Z "collect at job.py:10" Py4JNetworkError empty_world
                   _ _ _) _); reflexivity.
Defined.

(** C2 as stated does not hold: an engine-side error that is not the
    empty-option signal, raised by the failure-reason read, is taken for
    "completed" and does not leave the handler. *)
Lemma onStageCompleted_other_java_error_is_completed :
  Py4JJavaError "java.lang.IllegalStateException" ≠ empty_option_signal
  ∧ onStageCompleted
      (demo_stage (Raise (Py4JJavaError "java.lang.IllegalStateException")))
      empty_world
    = (Ok tt,
       push_breadcrumb
         {| level := "info"; message := "Stage 3 Completed";
            data := Some {[ "attemptId" := VInt 0;
                            "name" := VStr "collect at job.py:10" ]} |}
         empty_world).
Proof. split; [discriminate | reflexivity]. Qed.

(** ** The heap only grows *)

Lemma heap_extends_refl (h : gmap loc obj) : heap_extends h h.
Proof. intros l d H. exists d. split; [exact H | reflexivity]. Qed.

Lemma heap_extends_trans (h1 h2 h3 : gmap loc obj) :
  heap_extends h1 h2 → heap_extends h2 h3 → heap_extends h1 h3.
Proof.
  intros H12 H23 l d H.
  destruct (H12 l d H) as (d2 & H2 & Hsub2).
  destruct (H23 l d2 H2) as (d3 & H3 & Hsub3).
  exists d3. split; [exact H3 | etrans; eassumption].
Qed.

Lemma monotone_ret {A} (a : A) : monotone (ret a).
Proof. intros w. apply heap_extends_refl. Qed.

Lemma monotone_raise {A} (e : exn) : monotone (@raise A e).
Proof. intros w. apply heap_extends_refl. Qed.

Lemma monotone_call {A} (r : outcome A) : monotone (call r).
Proof. intros w. apply heap_extends_refl. Qed.

Lemma monotone_bind {A B} (m : M A) (k : A → M B) :
  monotone m → (∀ a, monotone (k a)) → monotone (bind m k).
Proof.
  intros Hm Hk w. unfold bind.
  specialize (Hm w). destruct (m w) as [[a|e] w1]; simpl in *.
  - eapply heap_extends_trans; [exact Hm | apply Hk].
  - exact Hm.
Qed.

Lemma monotone_reads_world {A} (k : World → M A) :
  (∀ w, monotone (k w)) → monotone (bind get_world k).
Proof. intros Hk w. unfold bind, get_world. apply Hk. Qed.

Lemma monotone_new_dict : monotone new_dict.
Proof.
  intros w l d H. unfold new_dict; simpl.
  exists d. split; [|reflexivity].
  rewrite lookup_insert_ne; [exact H|].
  intros <-.
  assert (Hin : fresh (dom (heap w)) ∈ dom (heap w))
    by (apply elem_of_dom; eauto).
  exact (is_fresh _ Hin).
Qed.

Lemma monotone_getattr_setdefault (o : val) : monotone (getattr_setdefault o).
Proof.
  unfold getattr_setdefault. apply monotone_reads_world. intros w.
  destruct o; try apply monotone_raise.
  destruct (heap w !! l) as [[d|xs]|];
    try apply monotone_raise; apply monotone_ret.
Qed.

Lemma monotone_dict_setdefault (l : loc) (k : string) (default : val) :
  monotone (dict_setdefault l k default).
Proof.
  intros w. unfold dict_setdefault, bind, get_world.
  destruct (heap w !! l) as [[d|xs]|] eqn:Hl;
    try apply heap_extends_refl.
  destruct (d !! k) as [v|] eqn:Hk; [apply heap_extends_refl|].
  simpl. intros l' d' H'.
  destruct (decide (l = l')) as [<-|Hne].
  - rewrite lookup_insert_eq. rewrite Hl in H'. injection H' as <-.
    eexists. split; [reflexivity|]. by apply insert_subseteq.
  - rewrite lookup_insert_ne by done. exists d'. split; [exact H'|reflexivity].
Qed.

Lemma monotone_call_setdefault (o : M val) (k : string) (arg : M val) :
  monotone o → monotone arg → monotone (call_setdefault o k arg).
Proof.
  intros Ho Harg. unfold call_setdefault.
  apply monotone_bind; [exact Ho|]. intros o'.
  apply monotone_bind; [apply monotone_getattr_setdefault|]. intros f.
  apply monotone_bind; [exact Harg|]. intros a.
  apply monotone_dict_setdefault.
Qed.

Lemma monotone_getitem (o : val) (k : string) : monotone (getitem o k).
Proof.
  unfold getitem. apply monotone_reads_world. intros w.
  destruct o; try apply monotone_raise.
  destruct (heap w !! l) as [[d|xs]|]; try apply monotone_raise.
  destruct (d !! k); [apply monotone_ret | apply monotone_raise].
Qed.

Lemma monotone_with_ (cm_exit : exn → bool) (body : M completion) :
  monotone body → monotone (with_ cm_exit body).
Proof.
  intros Hb w. unfold with_. specialize (Hb w).
  destruct (body w) as [[c|e] w1]; simpl in *; [exact Hb|].
  destruct (cm_exit e); exact Hb.
Qed.

Create HintDb mono.

#[local] Hint Resolve monotone_ret monotone_raise monotone_call
  monotone_new_dict monotone_getitem monotone_call_setdefault : mono.

Lemma monotone_process_event_body (sc : SparkContext) (event : loc) :
  monotone (process_event_body sc event).
Proof.
  unfold process_event_body. apply monotone_reads_world. intros w.
  destruct (negb (integration_enabled w)); [apply monotone_ret|].
  destruct (active_spark_context w); [|apply monotone_ret].
  repeat (apply monotone_bind; [auto 6 with mono | intros _]).
  apply monotone_ret.
Qed.

Lemma monotone_process_event (sc : SparkContext) (event : loc) (hint : val) :
  monotone (process_event sc event hint).
Proof.
  unfold process_event.
  apply monotone_bind.
  - apply monotone_with_, monotone_process_event_body.
  - intros [|v]; apply monotone_ret.
Qed.

Lemma report_field_extends (w w' : World) (event : loc) (g k : string)
    (v : val) :
  heap_extends (heap w) (heap w') →
  report_field w event g k = Some v →
  report_field w' event g k = Some v.
Proof.
  intros Hext. unfold report_field.
  destruct (heap w !! event) as [[d|?]|] eqn:He; try discriminate.
  destruct (Hext _ _ He) as (d' & -> & Hsub).
  destruct (d !! g) as [[| | |l]|] eqn:Hg; try discriminate.
  rewrite (lookup_weaken _ _ _ _ Hg Hsub).
  destruct (heap w !! l) as [[dl|?]|] eqn:Hl; try discriminate.
  destruct (Hext _ _ Hl) as (dl' & -> & Hsubl).
  intros Hk. exact (lookup_weaken _ _ _ _ Hk Hsubl).
Qed.

(** ** The event processor *)

Lemma bind_Ok_inv {A B} (m : M A) (k : A → M B) (w w' : World) (b : B) :
  bind m k w = (Ok b, w') →
  ∃ a w1, m w = (Ok a, w1) ∧ k a w1 = (Ok b, w').
Proof.
  unfold bind. destruct (m w) as [[a|e] w1]; [eauto | discriminate].
Qed.

(** The guarded block ends by [return event] or by running off its end. *)
Lemma process_event_body_completion
    (sc : SparkContext) (event : loc) (w w' : World) (c : completion) :
  process_event_body sc event w = (Ok c, w') →
  c = Fallthrough ∨ c = Return (VRef event).
Proof.
  unfold process_event_body. intros H.
  apply bind_Ok_inv in H as (w0 & w1 & Hw & H).
  destruct (negb (integration_enabled w0)).
  { right. unfold ret in H. congruence. }
  destruct (active_spark_context w0).
  2:{ right. unfold ret in H. congruence. }
  repeat (apply bind_Ok_inv in H as (? & ? & _ & H)).
  left. unfold ret in H. congruence.
Qed.

(** An exception inside the guarded block is suppressed: the processor
    returns the event, in the state the block had reached. *)
Lemma process_event_suppresses
    (sc : SparkContext) (event : loc) (hint : val) (w w1 : World) (e : exn) :
  process_event_body sc event w = (Raise e, w1) →
  process_event sc event hint w = (Ok (VRef event), w1).
Proof.
  intros H. unfold process_event, bind, with_. rewrite H. reflexivity.
Qed.

(** C10.  For every report and hint the event processor returns the
    reference to the report object it was given, never [None] and never
    an exception, whether the integration is disabled, no session is
    active, or a failure was caught on the way. *)
Theorem process_event_returns_event
    (sc : SparkContext) (event : loc) (hint : val) (w : World) :
  ∃ w', process_event sc event hint w = (Ok (VRef event), w').
Proof.
  destruct (process_event_body sc event w) as [[c|e] w1] eqn:H.
  - exists w1. unfold process_event, bind, with_. rewrite H.
    destruct (process_event_body_completion _ _ _ _ _ H) as [-> | ->];
      reflexivity.
  - exists w1. by eapply process_event_suppresses.
Qed.

(** C6.  When the integration is not enabled or no Spark context is
    active, the event processor returns the report and changes nothing:
    the world after the call, heap included, is the world before it. *)
Theorem process_event_inactive
    (sc : SparkContext) (event : loc) (hint : val) (w : World) :
  integration_enabled w = false ∨ active_spark_context w = None →
  process_event sc event hint w = (Ok (VRef event), w).
Proof.
  intros H.
  unfold process_event, with_, process_event_body, bind, get_world.
  destruct (integration_enabled w); simpl.
  - destruct H as [H | ->]; [discriminate | reflexivity].
  - reflexivity.
Qed.

Lemma process_event_inactive_witness :
  process_event demo_sc 1%positive VNone idle_world
  = (Ok (VRef 1%positive), idle_world).
Proof.
  apply (process_event_inactive demo_sc 1%positive VNone idle_world).
  right. reflexivity.
Defined.

(** C5.  Enrichment never overwrites: whatever value the report carries
    at [event[g][k]] before the processor runs, for any group [g] and
    key [k] and so for [user.id], the nine tags and [extra.web_url], it
    carries the same value afterwards. *)
Theorem process_event_keeps_existing
    (sc : SparkContext) (event : loc) (hint : val) (w : World)
    (g k : string) (v : val) :
  report_field w event g k = Some v →
  report_field (snd (process_event sc event hint w)) event g k = Some v.
Proof.
  apply report_field_extends, monotone_process_event.
Qed.

(** A report tagged [app_name = "X"] keeps the tag although the active
    context's application is named ["Y"]. *)
Lemma process_event_keeps_existing_witness :
  appName demo_sc = Ok (VStr "Y")
  ∧ report_field
      (snd (process_event demo_sc 1%positive VNone tagged_world))
      1%positive "tags" "app_name" = Some (VStr "X").
Proof.
  split; [reflexivity|].
  apply (process_event_keeps_existing demo_sc 1%positive VNone tagged_world
           "tags" "app_name" (VStr "X")).
  vm_compute. reflexivity.
Defined.

(** ** Property propagation *)

Lemma _set_app_properties_active
    (w : World) (sc : SparkContext) (a i : val) :
  active_spark_context w = Some sc →
  appName sc = Ok a →
  applicationId sc = Ok i →
  setLocalProperty sc = Ok tt →
  _set_app_properties w
  = (Ok tt,
     write_property "sentry_application_id" i
       (write_property "sentry_app_name" a w)).
Proof.
  intros Hsc Ha Hi Hset.
  unfold _set_app_properties, SparkContext_setLocalProperty, bind,
    get_world, call, modify.
  rewrite Hsc, Ha, Hi, Hset. reflexivity.
Qed.

Lemma _set_app_properties_idle (w : World) :
  active_spark_context w = None → _set_app_properties w = (Ok tt, w).
Proof.
  intros H. unfold _set_app_properties, bind, get_world. rewrite H.
  reflexivity.
Qed.

(** C9.  With an active context whose name and id can be read,
    [_set_app_properties] makes exactly two writes to the local
    properties, [sentry_app_name] with the application name and
    [sentry_application_id] with the application id; with no active
    context it writes nothing; and a second call makes the same two
    writes again and leaves the properties as the first call left
    them. *)
Theorem _set_app_properties_writes (w : World) :
  (active_spark_context w = None → _set_app_properties w = (Ok tt, w))
  ∧ (∀ sc a i,
       active_spark_context w = Some sc →
       appName sc = Ok a →
       applicationId sc = Ok i →
       setLocalProperty sc = Ok tt →
       ∃ w1 w2,
         _set_app_properties w = (Ok tt, w1)
         ∧ property_writes w1
           = (property_writes w
                ++ [("sentry_app_name", a); ("sentry_application_id", i)])%list
         ∧ local_properties w1
           = <[ "sentry_application_id" := i ]>
               (<[ "sentry_app_name" := a ]> (local_properties w))
         ∧ _set_app_properties w1 = (Ok tt, w2)
         ∧ property_writes w2
           = (property_writes w1
                ++ [("sentry_app_name", a); ("sentry_application_id", i)])%list
         ∧ local_properties w2 = local_properties w1).
Proof.
  split; [apply _set_app_properties_idle|].
  intros sc a i Hsc Ha Hi Hset.
  eexists _, _. split; [by eapply _set_app_properties_active|].
  split; [simpl; by rewrite <- app_assoc|].
  split; [reflexivity|].
  split; [by eapply _set_app_properties_active|].
  split; [simpl; by rewrite <- !app_assoc|].
  simpl. apply map_eq. intros k.
  destruct (decide (k = "sentry_application_id")) as [E|E];
    [subst; by simplify_map_eq|].
  destruct (decide (k = "sentry_app_name")) as [E'|E'];
    [subst; by simplify_map_eq|].
  by simplify_map_eq.
Qed.

Lemma _set_app_properties_writes_witness :
  ∃ w1 w2,
    _set_app_properties empty_world = (Ok tt, w1)
    ∧ property_writes w1
      = [("sentry_app_name", VStr "Y");
         ("sentry_application_id", VStr "app-42")]
    ∧ local_properties w1
      = <[ "sentry_application_id" := VStr "app-42" ]>
          (<[ "sentry_app_name" := VStr "Y" ]> ∅)
    ∧ _set_app_properties w1 = (Ok tt, w2)
    ∧ property_writes w2
      = (property_writes w1
           ++ [("sentry_app_name", VStr "Y");
               ("sentry_application_id", VStr "app-42")])%list
    ∧ local_properties w2 = local_properties w1.
Proof.
  exact (proj2 (_set_app_properties_writes empty_world)
           demo_sc (VStr "Y") (VStr "app-42")
           eq_refl eq_refl eq_refl eq_refl).
Defined.

(** ** Activation *)

Lemma _start_sentry_listener_ok (sc : SparkContext) (w : World) :
  ensure_callback_server_started sc = Ok tt →
  addSparkListener sc = Ok tt →
  _start_sentry_listener sc w
  = (Ok tt, push_listener (sc_id sc, SentryListener) w).
Proof.
  intros H1 H2. unfold _start_sentry_listener, bind, call, modify.
  rewrite H1, H2. reflexivity.
Qed.

(** A fault of the listener registration leaves the activation, before
    anything was registered. *)
Lemma _activate_integration_registration_fault
    (sc : SparkContext) (w : World) (e : exn) :
  ensure_callback_server_started sc = Ok tt →
  addSparkListener sc = Raise e →
  _activate_integration sc w = (Raise e, w).
Proof.
  intros H1 H2.
  unfold _activate_integration, _start_sentry_listener, bind, call.
  rewrite H1, H2. reflexivity.
Qed.

Lemma _set_app_properties_ok (w : World) :
  propagation_ok w →
  ∃ w', _set_app_properties w = (Ok tt, w')
    ∧ heap w' = heap w
    ∧ integration_enabled w' = integration_enabled w
    ∧ active_spark_context w' = active_spark_context w
    ∧ spark_listeners w' = spark_listeners w
    ∧ event_processors w' = event_processors w
    ∧ breadcrumbs w' = breadcrumbs w.
Proof.
  unfold propagation_ok. intros H.
  destruct (active_spark_context w) as [c|] eqn:Hc.
  - destruct H as ((a & Ha) & (i & Hi) & Hset).
    eexists. split; [by eapply _set_app_properties_active|].
    simpl. by rewrite Hc.
  - eexists. split; [by apply _set_app_properties_idle|]. by rewrite Hc.
Qed.

(** One call of the activation routine adds one listener and one event
    processor, whatever is registered already. *)
Lemma _activate_integration_adds_one (sc : SparkContext) (w : World) :
  ensure_callback_server_started sc = Ok tt →
  addSparkListener sc = Ok tt →
  propagation_ok w →
  ∃ w', _activate_integration sc w = (Ok tt, w')
    ∧ spark_listeners w' = (spark_listeners w ++ [(sc_id sc, SentryListener)])%list
    ∧ event_processors w'
      = (event_processors w ++ [process_event_closure sc])%list
    ∧ breadcrumbs w' = breadcrumbs w
    ∧ active_spark_context w' = active_spark_context w.
Proof.
  intros H1 H2 Hp.
  assert (Hp' : propagation_ok (push_listener (sc_id sc, SentryListener) w))
    by exact Hp.
  destruct (_set_app_properties_ok _ Hp')
    as (w1 & Hrun & _ & _ & Hact & Hls & Hps & Hbs).
  eexists. split.
  { unfold _activate_integration, bind.
    rewrite (_start_sentry_listener_ok sc w H1 H2), Hrun. reflexivity. }
  simpl. rewrite Hls, Hps, Hbs, Hact. done.
Qed.

(** The breadcrumb of a job-end event does not depend on the world. *)
Lemma onJobEnd_uniform (j : Z) (r : string) :
  ∃ b, ∀ w,
    onJobEnd {| JobEnd_jobId := Ok j; JobEnd_jobResult := Ok r |} w
    = (Ok tt, push_breadcrumb b w).
Proof.
  unfold onJobEnd, bind, call; simpl.
  destruct (String.eqb r "JobSucceeded"); eexists; intros w; reflexivity.
Qed.

(** A job-end event reaches every listener on the bus, and every
    [SentryListener] among them answers with the same breadcrumb. *)
Lemma for_each_onJobEnd (j : Z) (r : string) (ls : list Listener) (w : World) :
  ∃ b w',
    for_each
      (fun l => Listener_onJobEnd l
                  {| JobEnd_jobId := Ok j; JobEnd_jobResult := Ok r |})
      ls w = (Ok tt, w')
    ∧ onJobEnd {| JobEnd_jobId := Ok j; JobEnd_jobResult := Ok r |} w
      = (Ok tt, push_breadcrumb b w)
    ∧ breadcrumbs w' = (breadcrumbs w ++ replicate (sentry_count ls) b)%list.
Proof.
  destruct (onJobEnd_uniform j r) as (b & Hb).
  exists b. revert w. induction ls as [|l ls IH]; intros w.
  - exists w. simpl. rewrite app_nil_r. by rewrite Hb.
  - destruct l; simpl; unfold bind.
    + unfold ret. apply IH.
    + rewrite Hb.
      destruct (IH (push_breadcrumb b w)) as (w' & Hrun & _ & Hbs).
      exists w'. split; [exact Hrun|]. split; [reflexivity|].
      rewrite Hbs. simpl. by rewrite <- app_assoc.
Qed.

Lemma sentry_count_app (l1 l2 : list Listener) :
  sentry_count (l1 ++ l2) = sentry_count l1 + sentry_count l2.
Proof.
  induction l1 as [|[] l1 IH]; simpl; [done | done | by rewrite IH].
Qed.

Lemma listeners_of_push (sc : SparkContext) (w w' : World) (l : Listener) :
  spark_listeners w' = (spark_listeners w ++ [(sc_id sc, l)])%list →
  listeners_of sc w' = (listeners_of sc w ++ [l])%list.
Proof.
  intros H. unfold listeners_of. rewrite H, filter_app, fmap_app.
  f_equal. rewrite filter_cons_True by done. reflexivity.
Qed.

(** C1, as the code has it.  The activation routine keeps no record of
    earlier activations: each call that goes through adds one listener
    to the session's bus and one event processor to the scope.  After
    two calls for the same session both are there twice, and a single
    job-end event yields one breadcrumb for each registered
    [SentryListener], two more than before. *)
Theorem _activate_integration_twice (sc : SparkContext) (w : World) :
  ensure_callback_server_started sc = Ok tt →
  addSparkListener sc = Ok tt →
  propagation_ok w →
  ∃ w2,
    (_activate_integration sc;; _activate_integration sc) w = (Ok tt, w2)
    ∧ listeners_of sc w2
      = (listeners_of sc w ++ [SentryListener; SentryListener])%list
    ∧ event_processors w2
      = (event_processors w
           ++ [process_event_closure sc; process_event_closure sc])%list
    ∧ ∀ (j : Z) (r : string), ∃ b w3,
        post_job_end sc {| JobEnd_jobId := Ok j; JobEnd_jobResult := Ok r |} w2
          = (Ok tt, w3)
        ∧ onJobEnd {| JobEnd_jobId := Ok j; JobEnd_jobResult := Ok r |} w2
          = (Ok tt, push_breadcrumb b w2)
        ∧ breadcrumbs w3
          = (breadcrumbs w2
               ++ replicate (sentry_count (listeners_of sc w) + 2) b)%list.
Proof.
  intros H1 H2 Hp.
  destruct (_activate_integration_adds_one sc w H1 H2 Hp)
    as (w1 & Hrun1 & Hls1 & Hps1 & _ & Hact1).
  assert (Hp1 : propagation_ok w1)
    by (unfold propagation_ok in *; by rewrite Hact1).
  destruct (_activate_integration_adds_one sc w1 H1 H2 Hp1)
    as (w2 & Hrun2 & Hls2 & Hps2 & _ & _).
  assert (Hlof : listeners_of sc w2
                 = (listeners_of sc w ++ [SentryListener; SentryListener])%list).
  { rewrite (listeners_of_push sc w1 w2 _ Hls2),
      (listeners_of_push sc w w1 _ Hls1), <- app_assoc. reflexivity. }
  exists w2. split; [unfold bind; by rewrite Hrun1|].
  split; [exact Hlof|].
  split; [by rewrite Hps2, Hps1, <- app_assoc|].
  intros j r.
  destruct (for_each_onJobEnd j r (listeners_of sc w2) w2)
    as (b & w3 & Hrun & Hb & Hbs).
  exists b, w3. split; [exact Hrun|]. split; [exact Hb|].
  rewrite Hbs, Hlof, sentry_count_app. reflexivity.
Qed.

Lemma _activate_integration_twice_witness :
  ∃ w2,
    (_activate_integration demo_sc;; _activate_integration demo_sc) empty_world
      = (Ok tt, w2)
    ∧ listeners_of demo_sc w2 = [SentryListener; SentryListener]
    ∧ event_processors w2
      = [process_event_closure demo_sc; process_event_closure demo_sc].
Proof.
  assert (Hp : propagation_ok empty_world).
  { unfold propagation_ok; simpl. split; [|split]; [eexists..|]; reflexivity. }
  destruct (_activate_integration_twice demo_sc empty_world eq_refl eq_refl Hp)
    as (w2 & Hrun & Hls & Hps & _).
  exists w2. split; [exact Hrun|]. split; [exact Hls | exact Hps].
Defined.

(** C1 as stated does not hold: two activations of one session leave
    two listeners on its bus and two event processors on the scope, and
    one job-end event then produces two breadcrumbs. *)
Lemma double_activation_registers_twice :
  let w2 :=
    snd ((_activate_integration demo_sc;; _activate_integration demo_sc)
           empty_world) in
  fst ((_activate_integration demo_sc;; _activate_integration demo_sc)
         empty_world) = Ok tt
  ∧ length (listeners_of demo_sc w2) = 2
  ∧ length (event_processors w2) = 2
  ∧ length (breadcrumbs empty_world) = 0
  ∧ length (breadcrumbs (snd (post_job_end demo_sc demo_job_end w2))) = 2.
Proof. vm_compute. repeat split. Qed.

(** ** The patched initialiser *)

Section PatchedInitProperties.
Variable spark_context_init : SparkContext → list val → M val.

(** C8.  The patched initialiser runs the original initialiser first.
    If that raises, the exception reaches the caller and the world is
    the one the original left, with nothing activated.  If it returns
    and the integration is enabled, the activation routine runs on the
    world the original left; when the activation goes through the
    original's return value is returned, and when it raises, as for a
    failed listener registration, the exception reaches the caller.
    With the integration disabled the call is the original call. *)
Theorem _sentry_patched_spark_context_init_spec
    (self : SparkContext) (args : list val) (w : World) :
  let original := spark_context_init self args in
  let patched :=
    _sentry_patched_spark_context_init spark_context_init self args in
  (∀ e w0, original w = (Raise e, w0) → patched w = (Raise e, w0))
  ∧ (∀ rv w0, original w = (Ok rv, w0) →
       integration_enabled w = true →
       (∀ w1, _activate_integration self w0 = (Ok tt, w1) →
              patched w = (Ok rv, w1))
       ∧ (∀ e w1, _activate_integration self w0 = (Raise e, w1) →
                  patched w = (Raise e, w1))
       ∧ (∀ e, ensure_callback_server_started self = Ok tt →
               addSparkListener self = Raise e →
               patched w = (Raise e, w0)))
  ∧ (∀ rv w0, original w = (Ok rv, w0) →
       integration_enabled w = false →
       patched w = (Ok rv, w0)).
Proof.
  intros original patched.
  assert (Hrun : patched w
                 = if integration_enabled w
                   then (rv <- original;; _activate_integration self;; ret rv) w
                   else original w).
  { subst patched.
    unfold _sentry_patched_spark_context_init, ensure_integration_enabled.
    unfold bind at 1. unfold get_world.
    by destruct (integration_enabled w). }
  rewrite Hrun. clear Hrun.
  split; [|split].
  - intros e w0 H.
    destruct (integration_enabled w); [|exact H].
    unfold bind. rewrite H. reflexivity.
  - intros rv w0 H Hen. rewrite Hen.
    assert (Hact : ∀ r w1, _activate_integration self w0 = (r, w1) →
              (rv' <- original;; _activate_integration self;; ret rv') w
              = (match r with Ok _ => Ok rv | Raise e => Raise e end, w1)).
    { intros r w1 Hr. unfold bind. rewrite H, Hr. by destruct r. }
    split; [|split].
    + intros w1 Hr. exact (Hact _ _ Hr).
    + intros e w1 Hr. exact (Hact _ _ Hr).
    + intros e He Ha.
      exact (Hact _ _ (_activate_integration_registration_fault _ _ _ He Ha)).
  - intros rv w0 H Hen. rewrite Hen. exact H.
Qed.
End PatchedInitProperties.

(** An initialiser that returns: the context is activated once and the
    return value handed on. *)
Example patched_init_activates :
  let r :=
    _sentry_patched_spark_context_init demo_init_ok demo_sc [] empty_world in
  fst r = Ok VNone
  ∧ listeners_of demo_sc (snd r) = [SentryListener]
  ∧ event_processors (snd r) = [process_event_closure demo_sc].
Proof. vm_compute. repeat split. Qed.

(** An initialiser that fails: the exception reaches the caller and
    nothing is registered. *)
Lemma _sentry_patched_spark_context_init_spec_witness :
  _sentry_patched_spark_context_init demo_init_fails demo_sc [] empty_world
  = (Raise (Py4JJavaError "org.apache.spark.SparkException"), empty_world).
Proof.
  exact (proj1 (_sentry_patched_spark_context_init_spec
                  demo_init_fails demo_sc [] empty_world)
           _ _ eq_refl).
Defined.

(** ** Partial enrichment *)

(** Behind its two guards the block is the listed statements. *)
Lemma process_event_body_stmts
    (sc : SparkContext) (event : loc) (w : World) :
  integration_enabled w = true →
  is_Some (active_spark_context w) →
  process_event_body sc event w
  = run_field_stmts event (enrichment_stmts sc) (ret Fallthrough) w.
Proof.
  intros Hen [c Hc].
  unfold process_event_body. unfold bind at 1. unfold get_world.
  rewrite Hen, Hc. reflexivity.
Qed.

Lemma report_field_lookup2 (w : World) (event : loc) (g k : string) :
  report_field w event g k
  = match lookup2 (heap w) event g with
    | Some (VRef l) => lookup2 (heap w) l k
    | _ => None
    end.
Proof.
  unfold report_field, lookup2.
  destruct (heap w !! event) as [[d|?]|]; [|done..].
  destruct (d !! g) as [[| | |l]|]; done.
Qed.

Lemma is_dict_extends (h h' : gmap loc obj) (l : loc) :
  heap_extends h h' → is_dict h l → is_dict h' l.
Proof. intros Hext [d Hd]. destruct (Hext _ _ Hd) as (d' & ? & _). by exists d'. Qed.

Lemma lookup2_extends (h h' : gmap loc obj) (l : loc) (k : string) (v : val) :
  heap_extends h h' → lookup2 h l k = Some v → lookup2 h' l k = Some v.
Proof.
  intros Hext. unfold lookup2.
  destruct (h !! l) as [[d|?]|] eqn:Hl; try discriminate.
  destruct (Hext _ _ Hl) as (d' & -> & Hsub).
  intros Hk. exact (lookup_weaken _ _ _ _ Hk Hsub).
Qed.

Lemma group_present_extends (h h' : gmap loc obj) (event : loc) (g : string) :
  heap_extends h h' → group_present h event g → group_present h' event g.
Proof.
  intros Hext (l & Hg & Hl). exists l.
  split; [by eapply lookup2_extends | by eapply is_dict_extends].
Qed.

(** *** What a computation may write *)

Lemma writes_only_ret {A} K (a : A) : writes_only K (ret a).
Proof. by intros w l k _. Qed.

Lemma writes_only_raise {A} K (e : exn) : writes_only K (@raise A e).
Proof. by intros w l k _. Qed.

Lemma writes_only_call {A} K (r : outcome A) : writes_only K (call r).
Proof. by intros w l k _. Qed.

Lemma writes_only_bind {A B} K (m : M A) (f : A → M B) :
  writes_only K m → (∀ a, writes_only K (f a)) → writes_only K (bind m f).
Proof.
  intros Hm Hf w l k Hk. unfold bind.
  specialize (Hm w l k Hk). destruct (m w) as [[a|e] w1]; simpl in *.
  - by rewrite (Hf a w1 l k Hk).
  - exact Hm.
Qed.

Lemma writes_only_reads_world {A} K (f : World → M A) :
  (∀ w, writes_only K (f w)) → writes_only K (bind get_world f).
Proof. intros Hf w l k Hk. unfold bind, get_world. by apply Hf. Qed.

Lemma fresh_loc_unused (h : gmap loc obj) : h !! fresh (dom h) = None.
Proof. apply not_elem_of_dom, is_fresh. Qed.

Lemma writes_only_new_dict K : writes_only K new_dict.
Proof.
  intros w l k _. unfold new_dict, lookup2; simpl.
  destruct (decide (l = fresh (dom (heap w)))) as [->|Hne].
  - by rewrite lookup_insert_eq, fresh_loc_unused.
  - by rewrite lookup_insert_ne.
Qed.

Lemma writes_only_getattr_setdefault K (o : val) :
  writes_only K (getattr_setdefault o).
Proof.
  unfold getattr_setdefault. apply writes_only_reads_world. intros w.
  destruct o; try apply writes_only_raise.
  destruct (heap w !! l) as [[d|xs]|];
    try apply writes_only_raise; apply writes_only_ret.
Qed.

Lemma writes_only_getitem K (o : val) (k : string) :
  writes_only K (getitem o k).
Proof.
  unfold getitem. apply writes_only_reads_world. intros w.
  destruct o; try apply writes_only_raise.
  destruct (heap w !! l) as [[d|xs]|]; try apply writes_only_raise.
  destruct (d !! k); [apply writes_only_ret | apply writes_only_raise].
Qed.

Lemma writes_only_dict_setdefault K (l : loc) (k : string) (v : val) :
  k ∈ K → writes_only K (dict_setdefault l k v).
Proof.
  intros HK w l' k' Hk'. unfold dict_setdefault, bind, get_world.
  destruct (heap w !! l) as [[d|xs]|] eqn:Hl; try done.
  destruct (d !! k) as [v0|] eqn:Hk; [done|].
  simpl. unfold lookup2. destruct (decide (l = l')) as [<-|Hne].
  - rewrite lookup_insert_eq, Hl. apply lookup_insert_ne. by intros ->.
  - by rewrite lookup_insert_ne.
Qed.

Lemma writes_only_call_setdefault K (o : M val) (k : string) (arg : M val) :
  k ∈ K → writes_only K o → writes_only K arg →
  writes_only K (call_setdefault o k arg).
Proof.
  intros HK Ho Harg. unfold call_setdefault.
  apply writes_only_bind; [exact Ho|]. intros o'.
  apply writes_only_bind; [apply writes_only_getattr_setdefault|]. intros f.
  apply writes_only_bind; [exact Harg|]. intros a.
  by apply writes_only_dict_setdefault.
Qed.

(** A statement writes under its group and its key, nowhere else. *)
Lemma writes_only_run_field_stmt (event : loc) (f : FieldStmt) :
  writes_only [fs_group f; fs_key f] (run_field_stmt event f).
Proof.
  unfold run_field_stmt.
  destruct (fs_shape f); apply writes_only_call_setdefault;
    try apply writes_only_call; try set_solver.
  - apply writes_only_call_setdefault;
      [set_solver | apply writes_only_ret | apply writes_only_new_dict].
  - apply writes_only_getitem.
Qed.

Lemma monotone_run_field_stmt (event : loc) (f : FieldStmt) :
  monotone (run_field_stmt event f).
Proof. unfold run_field_stmt. destruct (fs_shape f); auto 6 with mono. Qed.

(** *** One statement *)

Lemma run_field_stmt_halves (event : loc) (f : FieldStmt) :
  run_field_stmt event f
  = bind (group_of event f) (fun o => setdefault_on o (fs_key f) (fs_read f)).
Proof. unfold run_field_stmt, group_of. by destruct (fs_shape f). Qed.

Lemma writes_only_group_of (event : loc) (f : FieldStmt) :
  writes_only [fs_group f] (group_of event f).
Proof.
  unfold group_of. destruct (fs_shape f).
  - apply writes_only_call_setdefault;
      [set_solver | apply writes_only_ret | apply writes_only_new_dict].
  - apply writes_only_getitem.
Qed.


Lemma writes_only_setdefault_on (o : val) (k : string) (read : outcome val) :
  writes_only [k] (setdefault_on o k read).
Proof.
  unfold setdefault_on.
  apply writes_only_bind; [apply writes_only_getattr_setdefault|]. intros f.
  apply writes_only_bind; [apply writes_only_call|]. intros a.
  apply writes_only_dict_setdefault. set_solver.
Qed.

Lemma monotone_setdefault_on (o : val) (k : string) (read : outcome val) :
  monotone (setdefault_on o k read).
Proof.
  unfold setdefault_on.
  apply monotone_bind; [apply monotone_getattr_setdefault|]. intros f.
  apply monotone_bind; [apply monotone_call|]. intros a.
  apply monotone_dict_setdefault.
Qed.

(** Running the primitives. *)
Lemma call_setdefault_run (o : M val) (k : string) (arg : M val) (w : World) :
  call_setdefault o k arg w
  = match o w with
    | (Ok o', w1) =>
        match getattr_setdefault o' w1 with
        | (Ok f, w2) =>
            match arg w2 with
            | (Ok a, w3) => dict_setdefault f k a w3
            | (Raise e, w3) => (Raise e, w3)
            end
        | (Raise e, w2) => (Raise e, w2)
        end
    | (Raise e, w1) => (Raise e, w1)
    end.
Proof. reflexivity. Qed.

Lemma getattr_setdefault_dict (l : loc) (w : World) :
  is_dict (heap w) l → getattr_setdefault (VRef l) w = (Ok l, w).
Proof.
  intros [d Hd]. unfold getattr_setdefault, bind, get_world. by rewrite Hd.
Qed.

Lemma getattr_setdefault_no_dict (l : loc) (w : World) :
  ¬ is_dict (heap w) l →
  getattr_setdefault (VRef l) w = (Raise AttributeError, w).
Proof.
  intros Hn. unfold getattr_setdefault, bind, get_world.
  destruct (heap w !! l) as [[d|xs]|] eqn:Hl; try done.
  destruct Hn. by exists d.
Qed.

Lemma dict_setdefault_run (l : loc) (k : string) (v : val) (w : World)
    (d : gmap string val) :
  heap w !! l = Some (ODict d) →
  dict_setdefault l k v w
  = match d !! k with
    | Some v0 => (Ok v0, w)
    | None => (Ok v, set_heap (<[l := ODict (<[k := v]> d)]> (heap w)) w)
    end.
Proof.
  intros Hl. unfold dict_setdefault, bind, get_world. rewrite Hl.
  by destruct (d !! k).
Qed.

Lemma getitem_run (l : loc) (k : string) (w : World) (d : gmap string val) :
  heap w !! l = Some (ODict d) →
  getitem (VRef l) k w
  = match d !! k with
    | Some v => (Ok v, w)
    | None => (Raise KeyError, w)
    end.
Proof.
  intros Hl. unfold getitem, bind, get_world. rewrite Hl.
  by destruct (d !! k).
Qed.

Lemma getitem_no_dict (l : loc) (k : string) (w : World) :
  ¬ is_dict (heap w) l → getitem (VRef l) k w = (Raise TypeError, w).
Proof.
  intros Hn. unfold getitem, bind, get_world.
  destruct (heap w !! l) as [[d|xs]|] eqn:Hl; try done.
  destruct Hn. by exists d.
Qed.

Lemma fresh_loc_ne (h : gmap loc obj) (l : loc) :
  is_Some (h !! l) → fresh (dom h) ≠ l.
Proof.
  intros [x Hx] Hf. pose proof (fresh_loc_unused h) as Hu.
  rewrite Hf, Hx in Hu. discriminate.
Qed.

(** What the group expression does to the report's item under the
    group, and what it yields. *)
Lemma group_of_entry (event : loc) (f : FieldStmt) (w : World) :
  group_entry_kept (heap w) (heap (snd (group_of event f w))) event
    (fs_group f)
  ∧ ∀ o, fst (group_of event f w) = Ok o →
      lookup2 (heap (snd (group_of event f w))) event (fs_group f) = Some o.
Proof.
  unfold group_of. destruct (fs_shape f).
  - (* event.setdefault(g, {}) *)
    rewrite call_setdefault_run. unfold ret.
    destruct (heap w !! event) as [ob|] eqn:He.
    2:{ rewrite getattr_setdefault_no_dict
          by (intros [d Hd]; congruence).
        split; [by left | discriminate]. }
    destruct ob as [d|xs].
    2:{ rewrite getattr_setdefault_no_dict
          by (intros [d Hd]; congruence).
        split; [by left | discriminate]. }
    rewrite getattr_setdefault_dict by (by exists d).
    assert (Hne : fresh (dom (heap w)) ≠ event)
      by (apply fresh_loc_ne; eauto).
    unfold new_dict.
    rewrite (dict_setdefault_run _ _ _ _ d)
      by (simpl; by rewrite lookup_insert_ne).
    destruct (d !! fs_group f) as [v0|] eqn:Hg; simpl.
    + assert (Hsame : lookup2 (<[fresh (dom (heap w)) := ODict ∅]> (heap w))
                        event (fs_group f) = Some v0).
      { unfold lookup2. rewrite lookup_insert_ne by done. by rewrite He. }
      split.
      * left. rewrite Hsame. unfold lookup2. by rewrite He.
      * intros o [= <-]. exact Hsame.
    + assert (Hnew : lookup2
                (<[event := ODict (<[fs_group f := VRef (fresh (dom (heap w)))]> d)]>
                   (<[fresh (dom (heap w)) := ODict ∅]> (heap w)))
                event (fs_group f) = Some (VRef (fresh (dom (heap w))))).
      { unfold lookup2. by rewrite lookup_insert_eq, lookup_insert_eq. }
      split.
      * right. split; [unfold lookup2; by rewrite He|].
        exists (fresh (dom (heap w))).
        split; [apply fresh_loc_unused|]. split; [exact Hnew|].
        exists ∅. rewrite lookup_insert_ne by done. by rewrite lookup_insert_eq.
      * intros o [= <-]. exact Hnew.
  - (* event[g] *)
    destruct (heap w !! event) as [ob|] eqn:He.
    2:{ rewrite getitem_no_dict by (intros [d Hd]; congruence).
        split; [by left | discriminate]. }
    destruct ob as [d|xs].
    2:{ rewrite getitem_no_dict by (intros [d Hd]; congruence).
        split; [by left | discriminate]. }
    rewrite (getitem_run _ _ _ d He).
    destruct (d !! fs_group f) as [v0|] eqn:Hg; simpl.
    + split; [by left|]. intros o [= <-]. unfold lookup2. by rewrite He.
    + split; [by left | discriminate].
Qed.

Lemma setdefault_on_ok (l : loc) (k : string) (read : outcome val) (v : val)
    (w : World) :
  is_dict (heap w) l →
  read = Ok v →
  ∃ r w',
    setdefault_on (VRef l) k read w = (Ok r, w')
    ∧ lookup2 (heap w') l k = Some (default v (lookup2 (heap w) l k)).
Proof.
  intros [d Hd] ->. unfold setdefault_on, bind at 1.
  rewrite getattr_setdefault_dict by (by exists d).
  unfold bind, call. rewrite (dict_setdefault_run _ _ _ _ d Hd).
  unfold lookup2 at 2. rewrite Hd.
  destruct (d !! k) as [v0|] eqn:Hk; simpl.
  - eexists _, _. split; [reflexivity|]. unfold lookup2. by rewrite Hd.
  - eexists _, _. split; [reflexivity|]. unfold lookup2; simpl.
    by rewrite lookup_insert_eq, lookup_insert_eq.
Qed.

Lemma setdefault_on_read_fails (l : loc) (k : string) (read : outcome val)
    (e : exn) (w : World) :
  is_dict (heap w) l →
  read = Raise e →
  setdefault_on (VRef l) k read w = (Raise e, w).
Proof.
  intros Hd ->. unfold setdefault_on, bind at 1.
  by rewrite getattr_setdefault_dict.
Qed.

(** On a well-formed report the group expression yields the group's
    dict. *)
Lemma group_of_ok (event : loc) (f : FieldStmt) (w : World) :
  is_dict (heap w) event →
  (fs_shape f = ViaSetdefault → group_ok (heap w) event (fs_group f)) →
  (fs_shape f = ViaGetitem → group_present (heap w) event (fs_group f)) →
  ∃ l w1, group_of event f w = (Ok (VRef l), w1) ∧ is_dict (heap w1) l.
Proof.
  intros [d Hd] Hset Hget. unfold group_of.
  destruct (fs_shape f).
  - specialize (Hset eq_refl).
    rewrite call_setdefault_run. unfold ret.
    rewrite getattr_setdefault_dict by (by exists d).
    unfold new_dict.
    assert (Hne : fresh (dom (heap w)) ≠ event)
      by (apply fresh_loc_ne; eauto).
    rewrite (dict_setdefault_run _ _ _ _ d)
      by (simpl; by rewrite lookup_insert_ne).
    destruct (d !! fs_group f) as [v0|] eqn:Hg.
    + destruct Hset as [Hnone | (l & Hl & [dl Hdl])];
        unfold lookup2 in *; rewrite Hd, Hg in *; [discriminate|].
      injection Hl as ->.
      eexists _, _. split; [reflexivity|]. exists dl. simpl.
      rewrite lookup_insert_ne; [done|]. apply fresh_loc_ne; eauto.
    + eexists _, _. split; [reflexivity|]. exists ∅. simpl.
      rewrite lookup_insert_ne by done. by rewrite lookup_insert_eq.
  - destruct (Hget eq_refl) as (l & Hl & Hdl).
    unfold lookup2 in Hl. rewrite Hd in Hl.
    rewrite (getitem_run _ _ _ d Hd), Hl. by eexists _, _.
Qed.

(** Whatever its outcome, a statement keeps the report's item under its
    group, or creates it. *)
Lemma run_field_stmt_entry (event : loc) (f : FieldStmt) (w : World) :
  fs_group f ≠ fs_key f →
  group_entry_kept (heap w) (heap (snd (run_field_stmt event f w))) event
    (fs_group f).
Proof.
  intros Hgk. rewrite run_field_stmt_halves. unfold bind.
  pose proof (group_of_entry event f w) as [Hentry _].
  destruct (group_of event f w) as [[o|e] w1]; simpl in *; [|exact Hentry].
  pose proof (writes_only_setdefault_on o (fs_key f) (fs_read f) w1 event
                (fs_group f)) as Hsame.
  unfold group_entry_kept in *.
  rewrite <- Hsame in Hentry by (by rewrite list_elem_of_singleton).
  destruct Hentry as [Hkept | (Hnone & lf & Hlf & Hnew & Hdict)];
    [by left | right].
  split; [exact Hnone|]. exists lf. split; [exact Hlf|].
  split; [exact Hnew|].
  eapply is_dict_extends; [apply monotone_setdefault_on | exact Hdict].
Qed.

(** Items under keys that were not written, in groups that were kept or
    created, read as before. *)
Lemma report_field_frame (w w' : World) (event : loc) (K : list string)
    (g g' k' : string) :
  (∀ l k, k ∉ K → lookup2 (heap w') l k = lookup2 (heap w) l k) →
  group_entry_kept (heap w) (heap w') event g →
  k' ∉ K →
  g' = g ∨ g' ∉ K →
  report_field w' event g' k' = report_field w event g' k'.
Proof.
  intros Hw Hentry Hk' Hg'. rewrite !report_field_lookup2.
  destruct (decide (g' = g)) as [->|Hne].
  - destruct Hentry as [-> | (Hnone & lf & Hlf & -> & _)].
    + destruct (lookup2 (heap w) event g) as [[| | |l]|]; try done.
      by apply Hw.
    + rewrite Hnone, Hw by done. unfold lookup2. by rewrite Hlf.
  - destruct Hg' as [?|Hg']; [done|].
    rewrite (Hw event g' Hg').
    destruct (lookup2 (heap w) event g') as [[| | |l]|]; try done.
    by apply Hw.
Qed.

Lemma group_ok_kept (h h' : gmap loc obj) (event : loc) (K : list string)
    (g g' : string) :
  (∀ l k, k ∉ K → lookup2 h' l k = lookup2 h l k) →
  heap_extends h h' →
  group_entry_kept h h' event g →
  g' = g ∨ g' ∉ K →
  group_ok h event g' → group_ok h' event g'.
Proof.
  intros Hw Hext Hentry Hg' Hok.
  destruct Hok as [Hnone | Hpres].
  2:{ right. by eapply group_present_extends. }
  destruct (decide (g' = g)) as [->|Hne].
  - destruct Hentry as [Hkept | (_ & lf & _ & Hnew & Hdict)].
    + left. by rewrite Hkept.
    + right. by exists lf.
  - destruct Hg' as [?|Hg']; [done|]. left. by rewrite Hw.
Qed.

(** A statement whose read goes through sets its field unless the field
    is there already. *)
Lemma run_field_stmt_ok (event : loc) (f : FieldStmt) (w : World) (v : val) :
  fs_group f ≠ fs_key f →
  is_dict (heap w) event →
  (fs_shape f = ViaSetdefault → group_ok (heap w) event (fs_group f)) →
  (fs_shape f = ViaGetitem → group_present (heap w) event (fs_group f)) →
  fs_read f = Ok v →
  ∃ r w',
    run_field_stmt event f w = (Ok r, w')
    ∧ group_present (heap w') event (fs_group f)
    ∧ report_field w' event (fs_group f) (fs_key f)
      = Some (default v (report_field w event (fs_group f) (fs_key f))).
Proof.
  intros Hgk Hev Hset Hget Hread.
  destruct (group_of_ok event f w Hev Hset Hget) as (l & w1 & Hrun1 & Hl).
  destruct (setdefault_on_ok l (fs_key f) _ v w1 Hl Hread)
    as (r & w' & Hrun2 & Hfield).
  pose proof (group_of_entry event f w) as [Hentry Hyield].
  rewrite Hrun1 in Hentry, Hyield. simpl in Hentry, Hyield.
  specialize (Hyield _ eq_refl).
  pose proof (writes_only_group_of event f w) as Hw1.
  rewrite Hrun1 in Hw1. simpl in Hw1.
  pose proof (writes_only_setdefault_on (VRef l) (fs_key f) (fs_read f) w1
                event (fs_group f)) as Hsame.
  rewrite Hrun2 in Hsame. simpl in Hsame.
  rewrite Hyield in Hsame.
  specialize (Hsame ltac:(by rewrite list_elem_of_singleton)).
  exists r, w'. split.
  { rewrite run_field_stmt_halves. unfold bind. by rewrite Hrun1. }
  split.
  { exists l. split; [exact Hsame|].
    pose proof (monotone_setdefault_on (VRef l) (fs_key f) (fs_read f) w1)
      as Hext.
    rewrite Hrun2 in Hext. by eapply is_dict_extends. }
  rewrite (report_field_lookup2 w'), Hsame, Hfield. f_equal. f_equal.
  assert (Hk : fs_key f ∉ [fs_group f])
    by (rewrite list_elem_of_singleton; congruence).
  rewrite (Hw1 l (fs_key f) Hk), report_field_lookup2.
  destruct Hentry as [Hkept | (Hnone & lf & Hlf & Hnew & _)].
  - by rewrite <- Hkept, Hyield.
  - rewrite Hnone. rewrite Hyield in Hnew. injection Hnew as ->.
    unfold lookup2. by rewrite Hlf.
Qed.

(** A statement whose read raises stops there: at most its group was
    created, and no field changed. *)
Lemma run_field_stmt_read_fails (event : loc) (f : FieldStmt) (w : World)
    (e : exn) :
  is_dict (heap w) event →
  (fs_shape f = ViaSetdefault → group_ok (heap w) event (fs_group f)) →
  (fs_shape f = ViaGetitem → group_present (heap w) event (fs_group f)) →
  fs_read f = Raise e →
  ∃ w',
    run_field_stmt event f w = (Raise e, w')
    ∧ ∀ g' k', k' ≠ fs_group f →
        report_field w' event g' k' = report_field w event g' k'.
Proof.
  intros Hev Hset Hget Hread.
  destruct (group_of_ok event f w Hev Hset Hget) as (l & w1 & Hrun1 & Hl).
  pose proof (group_of_entry event f w) as [Hentry _].
  pose proof (writes_only_group_of event f w) as Hw1.
  rewrite Hrun1 in Hentry, Hw1. simpl in Hentry, Hw1.
  exists w1. split.
  { rewrite run_field_stmt_halves. unfold bind. rewrite Hrun1.
    by apply setdefault_on_read_fails. }
  intros g' k' Hk'.
  apply (report_field_frame w w1 event [fs_group f] (fs_group f));
    [exact Hw1 | exact Hentry | by rewrite list_elem_of_singleton |].
  destruct (decide (g' = fs_group f)); [by left | right].
  by rewrite list_elem_of_singleton.
Qed.

(** The frame of a statement, whatever its outcome. *)
Lemma run_field_stmt_frame (event : loc) (f : FieldStmt) (w : World)
    (g' k' : string) :
  fs_group f ≠ fs_key f →
  k' ≠ fs_group f → k' ≠ fs_key f → g' ≠ fs_key f →
  report_field (snd (run_field_stmt event f w)) event g' k'
  = report_field w event g' k'.
Proof.
  intros Hgk Hk1 Hk2 Hg'.
  apply (report_field_frame w _ event [fs_group f; fs_key f] (fs_group f)).
  - apply writes_only_run_field_stmt.
  - by apply run_field_stmt_entry.
  - rewrite !not_elem_of_cons. split_and!; [done..|apply not_elem_of_nil].
  - destruct (decide (g' = fs_group f)); [by left | right].
    rewrite !not_elem_of_cons. split_and!; [done..|apply not_elem_of_nil].
Qed.

Lemma stmts_inv_step (P : list string) (event : loc) (f : FieldStmt)
    (w w' : World) (r : val) :
  fs_group f ∈ report_groups → fs_key f ∉ report_groups →
  stmts_inv P event w →
  run_field_stmt event f w = (Ok r, w') →
  group_present (heap w') event (fs_group f) →
  stmts_inv (fs_group f :: P) event w'.
Proof.
  intros Hg Hk (Hev & Hok & Hpres) Hrun Hnow.
  assert (Hgk : fs_group f ≠ fs_key f) by (intros Heq; by rewrite Heq in Hg).
  pose proof (monotone_run_field_stmt event f w) as Hext.
  pose proof (writes_only_run_field_stmt event f w) as Hw.
  pose proof (run_field_stmt_entry event f w Hgk) as Hentry.
  rewrite Hrun in Hext, Hw, Hentry. simpl in Hext, Hw, Hentry.
  split; [by eapply is_dict_extends|]. split.
  - intros g Hin.
    apply (group_ok_kept (heap w) (heap w') event
             [fs_group f; fs_key f] (fs_group f)); try done.
    + destruct (decide (g = fs_group f)); [by left | right].
      rewrite !not_elem_of_cons. split_and!; [done| |apply not_elem_of_nil].
      intros ->. done.
    + by apply Hok.
  - intros g [->|Hin]%elem_of_cons; [done|].
    eapply group_present_extends; [exact Hext | by apply Hpres].
Qed.

(** *** A run of statements whose reads go through *)

Lemma run_field_stmts_prefix {A} (event : loc) (k : M A)
    (pre : list FieldStmt) :
  ∀ (P : list string) (w : World) (rest : list FieldStmt),
    stmts_inv P event w →
    ordered P (pre ++ rest) →
    stmts_wf pre →
    Forall read_ok pre →
    ∃ w1 P1,
      run_field_stmts event (pre ++ rest) k w
        = run_field_stmts event rest k w1
      ∧ stmts_inv P1 event w1
      ∧ ordered P1 rest
      ∧ (∀ f v, f ∈ pre → fs_read f = Ok v →
           report_field w1 event (fs_group f) (fs_key f)
           = Some (default v (report_field w event (fs_group f) (fs_key f))))
      ∧ (∀ g' k', g' ∈ report_groups → k' ∉ report_groups →
           k' ∉ fs_key <$> pre →
           report_field w1 event g' k' = report_field w event g' k').
Proof.
  induction pre as [|f0 pre IH]; intros P w rest Hinv Hord Hwf Hreads.
  { exists w, P. split_and!; try done.
    intros f v Hin. by apply elem_of_nil in Hin. }
  destruct Hord as [Hshape Hord].
  destruct Hwf as [Hfa Hnd].
  apply Forall_cons in Hfa as [[Hg0 Hk0] Hfa].
  rewrite fmap_cons in Hnd. apply NoDup_cons in Hnd as [Hk0pre Hnd].
  apply Forall_cons in Hreads as [[v0 Hv0] Hreads].
  assert (Hgk : fs_group f0 ≠ fs_key f0)
    by (intros Heq; by rewrite Heq in Hg0).
  destruct Hinv as (Hev & Hok & Hpres).
  destruct (run_field_stmt_ok event f0 w v0 Hgk Hev)
    as (r & w0 & Hrun & Hnow & Hfield); [auto..|].
  assert (Hinv0 : stmts_inv (fs_group f0 :: P) event w0)
    by (eapply stmts_inv_step; eauto; by split_and!).
  destruct (IH _ w0 rest Hinv0 Hord (conj Hfa Hnd) Hreads)
    as (w1 & P1 & Hrun1 & Hinv1 & Hord1 & Hfields & Hframe).
  assert (Hstep : ∀ g' k', g' ∈ report_groups → k' ∉ report_groups →
            k' ≠ fs_key f0 →
            report_field w0 event g' k' = report_field w event g' k').
  { intros g' k' Hg' Hk' Hne.
    pose proof (run_field_stmt_frame event f0 w g' k' Hgk) as Hfr.
    rewrite Hrun in Hfr. apply Hfr; [|done|].
    - intros ->. done.
    - intros ->. done. }
  exists w1, P1. split_and!; try done.
  - simpl. unfold bind. by rewrite Hrun.
  - intros f v [->|Hin]%elem_of_cons Hv.
    + rewrite Hframe by done. rewrite Hfield. congruence.
    + rewrite (Hfields f v Hin Hv).
      pose proof (proj1 (Forall_forall _ _) Hfa f Hin) as [Hg Hk].
      rewrite Hstep; [done..|].
      intros Heq. apply Hk0pre. rewrite <- Heq.
      by apply list_elem_of_fmap_2.
  - intros g' k' Hg' Hk' Hnin.
    rewrite fmap_cons in Hnin. apply not_elem_of_cons in Hnin as [Hne Hnin].
    rewrite Hframe by done. by apply Hstep.
Qed.

Lemma enrichment_stmts_wf (sc : SparkContext) : stmts_wf (enrichment_stmts sc).
Proof.
  split.
  - unfold enrichment_stmts, report_groups.
    repeat (apply Forall_cons_2;
            [split; simpl; apply (bool_decide_unpack _); vm_compute; exact I|]).
    apply Forall_nil_2.
  - apply (bool_decide_unpack _). vm_compute. exact I.
Qed.

Lemma enrichment_stmts_ordered (sc : SparkContext) :
  ordered [] (enrichment_stmts sc).
Proof.
  simpl. split_and!; try done; intros _;
    apply (bool_decide_unpack _); vm_compute; exact I.
Qed.

Lemma stmts_inv_initial (w : World) (event : loc) :
  report_ok w event → stmts_inv [] event w.
Proof.
  intros [Hev Hok]. split_and!; [done..|]. intros g Hg. by apply elem_of_nil in Hg.
Qed.

(** When every read goes through, every field is set unless the report
    has it already (the processor's contract, step 2). *)
Lemma process_event_enriches_all
    (sc : SparkContext) (event : loc) (hint : val) (w : World) :
  integration_enabled w = true →
  is_Some (active_spark_context w) →
  report_ok w event →
  Forall read_ok (enrichment_stmts sc) →
  ∃ w',
    process_event sc event hint w = (Ok (VRef event), w')
    ∧ ∀ f v, f ∈ enrichment_stmts sc → fs_read f = Ok v →
        report_field w' event (fs_group f) (fs_key f)
        = Some (default v (report_field w event (fs_group f) (fs_key f))).
Proof.
  intros Hen Hact Hrep Hreads.
  destruct (run_field_stmts_prefix event (ret Fallthrough)
              (enrichment_stmts sc) [] w [])
    as (w1 & P1 & Hrun & _ & _ & Hfields & _).
  - by apply stmts_inv_initial.
  - rewrite app_nil_r. apply enrichment_stmts_ordered.
  - apply enrichment_stmts_wf.
  - exact Hreads.
  - exists w1. split; [|exact Hfields].
    rewrite app_nil_r in Hrun.
    unfold process_event, bind, with_.
    rewrite process_event_body_stmts, Hrun by done. reflexivity.
Qed.

(** C7.  Let the integration be enabled, a context be active and the
    report be well formed, and let some session attribute read raise
    while all reads before it went through.  Then the processor still
    returns the report, no exception leaves it, and the report is
    enriched exactly up to the failing read: every field whose read came
    before has its new value (or the value the report already had), and
    the field of the failing read and all later ones are as they
    were. *)
Theorem process_event_partial_enrichment
    (sc : SparkContext) (event : loc) (hint : val) (w : World)
    (pre : list FieldStmt) (f : FieldStmt) (post : list FieldStmt)
    (e : exn) :
  integration_enabled w = true →
  is_Some (active_spark_context w) →
  report_ok w event →
  enrichment_stmts sc = (pre ++ f :: post)%list →
  Forall read_ok pre →
  fs_read f = Raise e →
  ∃ w',
    process_event sc event hint w = (Ok (VRef event), w')
    ∧ (∀ f' v, f' ∈ pre → fs_read f' = Ok v →
         report_field w' event (fs_group f') (fs_key f')
         = Some (default v
                   (report_field w event (fs_group f') (fs_key f'))))
    ∧ (∀ f', f' ∈ f :: post →
         report_field w' event (fs_group f') (fs_key f')
         = report_field w event (fs_group f') (fs_key f')).
Proof.
  intros Hen Hact Hrep Hsplit Hreads Hfail.
  pose proof (enrichment_stmts_wf sc) as [Hfa Hnd].
  pose proof (enrichment_stmts_ordered sc) as Hord.
  rewrite Hsplit in Hfa, Hnd, Hord.
  apply Forall_app in Hfa as [Hfa_pre Hfa_rest].
  rewrite fmap_app in Hnd.
  apply NoDup_app in Hnd as (Hnd_pre & Hdisj & _).
  destruct (run_field_stmts_prefix event (ret Fallthrough) pre [] w
              (f :: post) (stmts_inv_initial _ _ Hrep) Hord
              (conj Hfa_pre Hnd_pre) Hreads)
    as (w1 & P1 & Hrun & (Hev1 & Hok1 & Hpres1) & [Hshape _] & Hfields & Hframe).
  pose proof (proj1 (Forall_forall _ _) Hfa_rest) as Hwf_rest.
  destruct (Hwf_rest f ltac:(apply list_elem_of_here)) as [Hg Hk].
  destruct (run_field_stmt_read_fails event f w1 e Hev1)
    as (w' & Hstop & Hkept); [auto..|].
  exists w'. split_and!.
  - apply (process_event_suppresses _ _ _ _ _ e).
    rewrite process_event_body_stmts, Hsplit, Hrun by done.
    simpl. unfold bind. by rewrite Hstop.
  - intros f' v Hin Hv.
    pose proof (proj1 (Forall_forall _ _) Hfa_pre f' Hin) as [_ Hk'].
    rewrite Hkept by (intros Heq; by rewrite Heq in Hk').
    by apply Hfields.
  - intros f' Hin.
    destruct (Hwf_rest f' Hin) as [Hg' Hk'].
    rewrite Hkept by (intros Heq; by rewrite Heq in Hk').
    apply Hframe; [done..|].
    intros Hpre. apply (Hdisj _ Hpre). by apply list_elem_of_fmap_2.
Qed.

(** The context is torn down after its user was read: the report comes
    back with [user.id] set and no [executor.id]. *)
Lemma process_event_partial_enrichment_witness :
  ∃ w',
    process_event torn_sc 1%positive VNone empty_world
      = (Ok (VRef 1%positive), w')
    ∧ report_field w' 1%positive "user" "id" = Some (VStr "alice")
    ∧ report_field w' 1%positive "tags" "executor.id" = None.
Proof.
  assert (Hrep : report_ok empty_world 1%positive).
  { split; [by exists ∅|]. intros g _. left.
    unfold lookup2, empty_world, demo_world; simpl.
    rewrite lookup_insert_eq. apply lookup_empty. }
  destruct (process_event_partial_enrichment torn_sc 1%positive VNone
              empty_world
              (take 1 (enrichment_stmts torn_sc))
              {| fs_shape := ViaSetdefault; fs_group := "tags";
                 fs_key := "executor.id"; fs_read := Raise AttributeError |}
              (drop 2 (enrichment_stmts torn_sc))
              AttributeError)
    as (w' & Hrun & Hpre & Hpost).
  - reflexivity.
  - by exists demo_sc.
  - exact Hrep.
  - reflexivity.
  - repeat constructor. by exists (VStr "alice").
  - reflexivity.
  - exists w'. split; [exact Hrun|]. split.
    + exact (Hpre _ (VStr "alice") (list_elem_of_here _ _) eq_refl).
    + exact (Hpost _ (list_elem_of_here _ _)).
Defined.

(** * Further properties *)

(** ** Listener callbacks: what they touch *)

Lemma only_crumbs_and_properties_refl (w : World) :
  only_crumbs_and_properties w w.
Proof. by split_and!. Qed.

Lemma only_crumbs_and_properties_trans (w1 w2 w3 : World) :
  only_crumbs_and_properties w1 w2 →
  only_crumbs_and_properties w2 w3 →
  only_crumbs_and_properties w1 w3.
Proof.
  intros (H1 & H2 & H3 & H4 & H5 & H6 & H7) (K1 & K2 & K3 & K4 & K5 & K6 & K7).
  split_and!; try congruence; etrans; eassumption.
Qed.

Lemma bind_only_crumbs {A B} (m : M A) (k : A → M B) :
  (∀ w, only_crumbs_and_properties w (snd (m w))) →
  (∀ a w, only_crumbs_and_properties w (snd (k a w))) →
  ∀ w, only_crumbs_and_properties w (snd (bind m k w)).
Proof.
  intros Hm Hk w. unfold bind. specialize (Hm w).
  destruct (m w) as [[a|e] w1]; simpl in *; [|exact Hm].
  eapply only_crumbs_and_properties_trans; [exact Hm | apply Hk].
Qed.

Lemma add_breadcrumb_only_crumbs (lvl msg : string)
    (d : option (gmap string val)) (w : World) :
  only_crumbs_and_properties w (snd (add_breadcrumb lvl msg d w)).
Proof.
  unfold add_breadcrumb, modify; simpl. split_and!; try done.
  by apply prefix_app_r.
Qed.

Lemma setLocalProperty_only_crumbs (sc : SparkContext) (k : string) (v : val)
    (w : World) :
  only_crumbs_and_properties w (snd (SparkContext_setLocalProperty sc k v w)).
Proof.
  unfold SparkContext_setLocalProperty, bind, call, modify.
  destruct (setLocalProperty sc) as [[]|e]; simpl;
    [|apply only_crumbs_and_properties_refl].
  split_and!; try done. by apply prefix_app_r.
Qed.

Lemma _set_app_properties_only_crumbs (w : World) :
  only_crumbs_and_properties w (snd (_set_app_properties w)).
Proof.
  unfold _set_app_properties. unfold bind at 1. unfold get_world.
  destruct (active_spark_context w) as [c|];
    [|apply only_crumbs_and_properties_refl].
  revert w. apply bind_only_crumbs.
  { intros w. apply only_crumbs_and_properties_refl. }
  intros a. apply bind_only_crumbs.
  { apply setLocalProperty_only_crumbs. }
  intros _. apply bind_only_crumbs.
  { intros w. apply only_crumbs_and_properties_refl. }
  intros i. apply setLocalProperty_only_crumbs.
Qed.

(** Reading proxies and building local values leaves the world alone. *)
Lemma run_stmts_pure {L} (stmts : list (L → M L)) :
  Forall (λ s, ∀ l w, snd (s l w) = w) stmts →
  ∀ l w, snd (run_stmts stmts l w) = w.
Proof.
  induction 1 as [|s stmts Hs _ IH]; intros l w; [done|].
  simpl. specialize (Hs l w).
  destruct (s l w) as [[l'|e] w']; simpl in *; subst; [apply IH | done].
Qed.

Lemma try_except_pure {L} (body handler : list (L → M L))
    (catches : exn → bool) :
  Forall (λ s, ∀ l w, snd (s l w) = w) body →
  Forall (λ s, ∀ l w, snd (s l w) = w) handler →
  ∀ l w, snd (try_except body catches handler l w) = w.
Proof.
  intros Hb Hh l w. unfold try_except, block.
  pose proof (run_stmts_pure body Hb l w) as Hw.
  destruct (run_stmts body l w) as [[l' [e|]] w']; simpl in *; subst; [|done].
  destruct (catches e); [|done].
  pose proof (run_stmts_pure handler Hh l' w) as Hw'.
  by destruct (run_stmts handler l' w) as [[l'' [e'|]] w'']; simpl in *.
Qed.

Lemma bind_call_pure {A B} (r : outcome A) (k : A → M B) :
  (∀ a w, snd (k a w) = w) → ∀ w, snd (bind (call r) k w) = w.
Proof. intros Hk w. unfold bind, call. destruct r; [apply Hk | done]. Qed.

(** The locals of [onStageCompleted] after its [try] statement, and the
    world untouched. *)
Lemma onStageCompleted_try_pure (si : StageInfo) (l0 : StageLocals)
    (w : World) :
  snd (try_except
         [ (fun l =>
              o <- call (StageInfo_failureReason si);;
              r <- call (JavaOption_get o);;
              ret {| l_message := l_message l; l_level := l_level l;
                     l_data := <[ "reason" := VStr r ]> (l_data l) |});
           (fun l =>
              s <- call (StageInfo_stageId si);;
              ret {| l_message := format "Stage " s " Failed";
                     l_level := l_level l; l_data := l_data l |});
           (fun l =>
              ret {| l_message := l_message l; l_level := "warning";
                     l_data := l_data l |}) ]
         isinstance_Py4JJavaError
         [ (fun l =>
              s <- call (StageInfo_stageId si);;
              ret {| l_message := format "Stage " s " Completed";
                     l_level := l_level l; l_data := l_data l |});
           (fun l =>
              ret {| l_message := l_message l; l_level := "info";
                     l_data := l_data l |}) ]
         l0 w) = w.
Proof.
  apply try_except_pure;
    repeat (apply Forall_cons_2; [|]); try apply Forall_nil_2;
    intros l w'; try done;
    repeat (apply bind_call_pure; intros ? ?); done.
Qed.

Lemma bind_call {A B} (r : outcome A) (k : A → M B) (w : World) :
  bind (call r) k w
  = match r with
    | Ok a => k a w
    | Raise e => (Raise e, w)
    end.
Proof. by destruct r. Qed.

Lemma bind_run {A B} (m : M A) (k : A → M B) (w : World) :
  bind m k w
  = match m w with
    | (Ok a, w') => k a w'
    | (Raise e, w') => (Raise e, w')
    end.
Proof. reflexivity. Qed.

(** [onJobEnd] is all or nothing: whatever the accessors of the event
    do, the callback either returns having appended exactly one
    breadcrumb, or raises and leaves the world as it was. *)
Theorem onJobEnd_all_or_nothing (jobEnd : JobEnd) (w : World) :
  (∃ e, onJobEnd jobEnd w = (Raise e, w))
  ∨ (∃ b, onJobEnd jobEnd w = (Ok tt, push_breadcrumb b w)).
Proof.
  unfold onJobEnd. rewrite bind_call.
  destruct (JobEnd_jobResult jobEnd) as [r|e]; [|left; by exists e].
  rewrite bind_call.
  destruct (String.eqb r "JobSucceeded");
    rewrite bind_run, bind_call;
    (destruct (JobEnd_jobId jobEnd) as [j|e]; [right | left; by exists e]);
    eexists; reflexivity.
Qed.

(** [onStageCompleted] is all or nothing as well: one breadcrumb and a
    normal return, or an exception and no trace of the call.  A caught
    failure of the failure-reason read never leaves a breadcrumb behind
    when the handler itself then fails. *)
Theorem onStageCompleted_all_or_nothing
    (stageCompleted : StageCompleted) (w : World) :
  (∃ e, onStageCompleted stageCompleted w = (Raise e, w))
  ∨ (∃ b, onStageCompleted stageCompleted w = (Ok tt, push_breadcrumb b w)).
Proof.
  unfold onStageCompleted. rewrite bind_call.
  destruct (StageCompleted_stageInfo stageCompleted) as [si|e];
    [|left; by exists e].
  rewrite bind_call.
  destruct (StageInfo_attemptId si) as [a|e]; [|left; by exists e].
  rewrite bind_call.
  destruct (StageInfo_name si) as [n|e]; [|left; by exists e].
  rewrite bind_run.
  match goal with
  | |- context [try_except ?b ?c ?h ?l w] =>
      pose proof (onStageCompleted_try_pure si l w) as Hw;
      destruct (try_except b c h l w) as [[l'|e] w']
  end; simpl in Hw; subst w'.
  - right. eexists. reflexivity.
  - left. by exists e.
Qed.

(** Whatever callback reaches whatever listener, and however it ends,
    the heap, the integration flag, the active context, the registered
    listeners and the event processors are as before; breadcrumbs and
    property writes are only ever appended. *)
Theorem Listener_call_only_appends (l : Listener) (c : Callback) (w : World) :
  only_crumbs_and_properties w (snd (Listener_call l c w)).
Proof.
  destruct l; [apply only_crumbs_and_properties_refl|].
  destruct c; try apply only_crumbs_and_properties_refl; simpl.
  - (* onJobEnd *)
    revert w. unfold onJobEnd.
    apply bind_only_crumbs; [intros w; apply only_crumbs_and_properties_refl|].
    intros r.
    apply bind_only_crumbs; [intros w; apply only_crumbs_and_properties_refl|].
    intros r'. apply bind_only_crumbs.
    + intros w. destruct (String.eqb r' "JobSucceeded");
        rewrite bind_call; destruct (JobEnd_jobId jobEnd);
        apply only_crumbs_and_properties_refl.
    + intros lm. apply add_breadcrumb_only_crumbs.
  - (* onJobStart *)
    revert w. unfold onJobStart.
    apply bind_only_crumbs; [intros w; apply only_crumbs_and_properties_refl|].
    intros j. apply bind_only_crumbs; [apply add_breadcrumb_only_crumbs|].
    intros _. apply _set_app_properties_only_crumbs.
  - (* onStageCompleted *)
    revert w. unfold onStageCompleted.
    apply bind_only_crumbs; [intros w; apply only_crumbs_and_properties_refl|].
    intros si.
    apply bind_only_crumbs; [intros w; apply only_crumbs_and_properties_refl|].
    intros a.
    apply bind_only_crumbs; [intros w; apply only_crumbs_and_properties_refl|].
    intros n. apply bind_only_crumbs.
    + intros w. rewrite onStageCompleted_try_pure.
      apply only_crumbs_and_properties_refl.
    + intros l. apply add_breadcrumb_only_crumbs.
  - (* onStageSubmitted *)
    revert w. unfold onStageSubmitted.
    apply bind_only_crumbs; [intros w; apply only_crumbs_and_properties_refl|].
    intros si.
    apply bind_only_crumbs; [intros w; apply only_crumbs_and_properties_refl|].
    intros s.
    apply bind_only_crumbs; [intros w; apply only_crumbs_and_properties_refl|].
    intros a.
    apply bind_only_crumbs; [intros w; apply only_crumbs_and_properties_refl|].
    intros n. apply bind_only_crumbs; [apply add_breadcrumb_only_crumbs|].
    intros _. apply _set_app_properties_only_crumbs.
Qed.

(** The twenty callbacks [SentryListener] does not override, and all
    twenty-four of a plain [SparkListener], return normally and change
    nothing. *)
Theorem inherited_callbacks_do_nothing (l : Listener) (c : Callback)
    (w : World) :
  l = SparkListener ∨ overridden c = false →
  Listener_call l c w = (Ok tt, w).
Proof.
  intros [-> | Hc]; [reflexivity|].
  destruct l; [reflexivity|]. by destruct c.
Qed.

Lemma inherited_callbacks_do_nothing_witness :
  Listener_call SentryListener OnTaskEnd empty_world = (Ok tt, empty_world).
Proof.
  apply (inherited_callbacks_do_nothing SentryListener OnTaskEnd empty_world).
  right. reflexivity.
Defined.

(** ** Callbacks that propagate the application identity *)

(** Property propagation and the breadcrumb trail do not interfere. *)
Lemma _set_app_properties_after_breadcrumb (b : Breadcrumb) (w : World) :
  _set_app_properties (push_breadcrumb b w)
  = (fst (_set_app_properties w),
     push_breadcrumb b (snd (_set_app_properties w))).
Proof.
  unfold _set_app_properties, SparkContext_setLocalProperty, bind, call,
    modify, get_world; simpl.
  destruct (active_spark_context w) as [c|]; [|reflexivity].
  destruct (appName c) as [a|e]; [|reflexivity].
  destruct (setLocalProperty c) as [[]|e]; [|reflexivity].
  destruct (applicationId c) as [i|e]; reflexivity.
Qed.

(** [onJobStart] records the breadcrumb [{level: info, message: "Job
    {jobId} Started"}], without data, before it propagates the
    application identity: the callback ends as the propagation ends,
    and the breadcrumb is there even when the propagation raises.  When
    the job id cannot be read nothing happens at all. *)
Theorem onJobStart_breadcrumb_then_properties (j : Z) (w : World) :
  onJobStart {| JobStart_jobId := Ok j |} w
  = (fst (_set_app_properties w),
     push_breadcrumb
       {| level := "info"; message := "Job " +:+ pretty j +:+ " Started";
          data := None |}
       (snd (_set_app_properties w)))
  ∧ ∀ e, onJobStart {| JobStart_jobId := Raise e |} w = (Raise e, w).
Proof.
  split; [|done].
  unfold onJobStart. rewrite bind_call. unfold add_breadcrumb; simpl.
  rewrite bind_run. unfold modify.
  apply _set_app_properties_after_breadcrumb.
Qed.

(** [onStageSubmitted] records [{level: info, message: "Stage {stageId}
    Submitted", data: {attemptId, name}}] and then propagates the
    application identity; the breadcrumb stays when the propagation
    raises. *)
Theorem onStageSubmitted_breadcrumb_then_properties
    (s a : Z) (n : string) (fr : outcome JavaOption) (w : World) :
  onStageSubmitted
    {| StageSubmitted_stageInfo :=
         Ok {| StageInfo_stageId := Ok s; StageInfo_attemptId := Ok a;
               StageInfo_name := Ok n; StageInfo_failureReason := fr |} |} w
  = (fst (_set_app_properties w),
     push_breadcrumb
       {| level := "info";
          message := "Stage " +:+ pretty s +:+ " Submitted";
          data := Some {[ "attemptId" := VInt a; "name" := VStr n ]} |}
       (snd (_set_app_properties w))).
Proof.
  unfold onStageSubmitted. rewrite bind_call; simpl.
  rewrite !bind_call. unfold add_breadcrumb.
  rewrite bind_run. unfold modify.
  apply _set_app_properties_after_breadcrumb.
Qed.

(** In [onStageCompleted] only the failure-reason read is guarded: an
    exception from [attemptId()] or [name()], a [Py4JJavaError]
    included, leaves the handler, and no breadcrumb is added. *)
Theorem onStageCompleted_unguarded_reads
    (si : StageInfo) (e : exn) (w : World) :
  StageInfo_attemptId si = Raise e
  ∨ (∃ a, StageInfo_attemptId si = Ok a) ∧ StageInfo_name si = Raise e →
  onStageCompleted {| StageCompleted_stageInfo := Ok si |} w = (Raise e, w).
Proof.
  intros H. unfold onStageCompleted. rewrite bind_call; simpl.
  rewrite bind_call.
  destruct H as [-> | [[a ->] Hn]]; [reflexivity|].
  rewrite bind_call, Hn. reflexivity.
Qed.

Lemma onStageCompleted_unguarded_reads_witness :
  onStageCompleted
    {| StageCompleted_stageInfo :=
         Ok {| StageInfo_stageId := Ok 3%Z;
               StageInfo_attemptId := Ok 0%Z;
               StageInfo_name :=
                 Raise (Py4JJavaError "java.lang.NullPointerException");
               StageInfo_failureReason := Ok JavaOption_none |} |}
    empty_world
  = (Raise (Py4JJavaError "java.lang.NullPointerException"), empty_world).
Proof.
  apply (onStageCompleted_unguarded_reads
           {| StageInfo_stageId := Ok 3%Z;
              StageInfo_attemptId := Ok 0%Z;
              StageInfo_name :=
                Raise (Py4JJavaError "java.lang.NullPointerException");
              StageInfo_failureReason := Ok JavaOption_none |}
           (Py4JJavaError "java.lang.NullPointerException") empty_world).
  right. split; [by exists 0%Z | reflexivity].
Defined.

(** ** Partial failures of propagation and activation *)

(** [_set_app_properties] writes the name before it reads the id: when
    the id cannot be read, [sentry_app_name] has been written, nothing
    else has, and the exception leaves the routine. *)
Theorem _set_app_properties_id_unreadable
    (w : World) (c : SparkContext) (a : val) (e : exn) :
  active_spark_context w = Some c →
  appName c = Ok a →
  setLocalProperty c = Ok tt →
  applicationId c = Raise e →
  _set_app_properties w = (Raise e, write_property "sentry_app_name" a w).
Proof.
  intros Hc Ha Hset Hi.
  unfold _set_app_properties, SparkContext_setLocalProperty.
  rewrite bind_run. unfold get_world. rewrite Hc.
  rewrite bind_call, Ha, bind_run, bind_call, Hset.
  unfold modify. rewrite bind_call, Hi. reflexivity.
Qed.

Lemma _set_app_properties_id_unreadable_witness :
  _set_app_properties no_id_world
  = (Raise (Py4JJavaError "java.lang.IllegalStateException"),
     write_property "sentry_app_name" (VStr "Y") no_id_world).
Proof.
  exact (_set_app_properties_id_unreadable no_id_world no_id_sc (VStr "Y")
           (Py4JJavaError "java.lang.IllegalStateException")
           eq_refl eq_refl eq_refl eq_refl).
Defined.

(** The activation is not atomic.  It registers the listener first,
    then propagates the properties, then installs the event processor:
    when the propagation raises, the listener stays registered and the
    event processor is never installed. *)
Theorem _activate_integration_half_done
    (sc c : SparkContext) (a : val) (e : exn) (w : World) :
  ensure_callback_server_started sc = Ok tt →
  addSparkListener sc = Ok tt →
  active_spark_context w = Some c →
  appName c = Ok a →
  setLocalProperty c = Ok tt →
  applicationId c = Raise e →
  ∃ w',
    _activate_integration sc w = (Raise e, w')
    ∧ spark_listeners w'
      = (spark_listeners w ++ [(sc_id sc, SentryListener)])%list
    ∧ event_processors w' = event_processors w
    ∧ property_writes w'
      = (property_writes w ++ [("sentry_app_name", a)])%list.
Proof.
  intros H1 H2 Hc Ha Hset Hi.
  eexists. split.
  { unfold _activate_integration. rewrite bind_run.
    rewrite (_start_sentry_listener_ok sc w H1 H2), bind_run.
    rewrite (_set_app_properties_id_unreadable _ c a e); done. }
  done.
Qed.

Lemma _activate_integration_half_done_witness :
  ∃ w',
    _activate_integration no_id_sc no_id_world
      = (Raise (Py4JJavaError "java.lang.IllegalStateException"), w')
    ∧ spark_listeners w' = [(2, SentryListener)]
    ∧ event_processors w' = []
    ∧ property_writes w' = [("sentry_app_name", VStr "Y")].
Proof.
  exact (_activate_integration_half_done no_id_sc no_id_sc (VStr "Y")
           (Py4JJavaError "java.lang.IllegalStateException") no_id_world
           eq_refl eq_refl eq_refl eq_refl eq_refl eq_refl).
Defined.

(** ** The event processor: what it touches *)

Lemma same_outside_heap_refl (w : World) : same_outside_heap w w.
Proof. by destruct w. Qed.

Lemma same_outside_heap_trans (w1 w2 w3 : World) :
  same_outside_heap w1 w2 → same_outside_heap w2 w3 →
  same_outside_heap w1 w3.
Proof. unfold same_outside_heap. intros H12 ->. by rewrite H12. Qed.

Lemma bind_same_outside_heap {A B} (m : M A) (k : A → M B) :
  (∀ w, same_outside_heap w (snd (m w))) →
  (∀ a w, same_outside_heap w (snd (k a w))) →
  ∀ w, same_outside_heap w (snd (bind m k w)).
Proof.
  intros Hm Hk w. unfold bind. specialize (Hm w).
  destruct (m w) as [[a|e] w1]; simpl in *; [|exact Hm].
  eapply same_outside_heap_trans; [exact Hm | apply Hk].
Qed.

Lemma getattr_setdefault_same_world (o : val) (w : World) :
  snd (getattr_setdefault o w) = w.
Proof.
  unfold getattr_setdefault, bind, get_world.
  destruct o; try done. by destruct (heap w !! l) as [[d|xs]|].
Qed.

Lemma getitem_same_world (o : val) (k : string) (w : World) :
  snd (getitem o k w) = w.
Proof.
  unfold getitem, bind, get_world.
  destruct o; try done. destruct (heap w !! l) as [[d|xs]|]; try done.
  by destruct (d !! k).
Qed.

Lemma dict_setdefault_same_outside_heap (l : loc) (k : string) (v : val)
    (w : World) :
  same_outside_heap w (snd (dict_setdefault l k v w)).
Proof.
  unfold dict_setdefault, bind, get_world.
  destruct (heap w !! l) as [[d|xs]|]; try apply same_outside_heap_refl.
  destruct (d !! k); [apply same_outside_heap_refl | done].
Qed.

Lemma call_setdefault_same_outside_heap (o : M val) (k : string)
    (arg : M val) :
  (∀ w, same_outside_heap w (snd (o w))) →
  (∀ w, same_outside_heap w (snd (arg w))) →
  ∀ w, same_outside_heap w (snd (call_setdefault o k arg w)).
Proof.
  intros Ho Harg. unfold call_setdefault.
  apply bind_same_outside_heap; [exact Ho|]. intros o'.
  apply bind_same_outside_heap.
  { intros w. rewrite getattr_setdefault_same_world.
    apply same_outside_heap_refl. }
  intros f. apply bind_same_outside_heap; [exact Harg|]. intros a.
  apply dict_setdefault_same_outside_heap.
Qed.

Lemma run_field_stmt_same_outside_heap (event : loc) (f : FieldStmt)
    (w : World) :
  same_outside_heap w (snd (run_field_stmt event f w)).
Proof.
  revert w. unfold run_field_stmt. destruct (fs_shape f);
    apply call_setdefault_same_outside_heap;
    try (intros w; apply same_outside_heap_refl).
  - apply call_setdefault_same_outside_heap;
      [intros w; apply same_outside_heap_refl | by intros w].
  - intros w. rewrite getitem_same_world. apply same_outside_heap_refl.
Qed.

Lemma run_field_stmts_same_outside_heap {A} (event : loc)
    (fs : list FieldStmt) (a : A) (w : World) :
  same_outside_heap w (snd (run_field_stmts event fs (ret a) w)).
Proof.
  revert w. induction fs as [|f fs IH]; intros w; simpl.
  - apply same_outside_heap_refl.
  - revert w. apply bind_same_outside_heap; [|by intros _].
    apply run_field_stmt_same_outside_heap.
Qed.

(** Enrichment works on the report and on nothing else: whatever the
    report, the context and the outcome of the reads, the event
    processor adds no breadcrumb, writes no property, registers nothing
    and leaves the integration flag and the active context alone. *)
Theorem process_event_only_touches_heap
    (sc : SparkContext) (event : loc) (hint : val) (w : World) :
  same_outside_heap w (snd (process_event sc event hint w)).
Proof.
  assert (Hbody : same_outside_heap w (snd (process_event_body sc event w))).
  { destruct (integration_enabled w) eqn:Hen.
    - destruct (active_spark_context w) as [c|] eqn:Hc.
      + rewrite process_event_body_stmts by eauto.
        apply run_field_stmts_same_outside_heap.
      + unfold process_event_body, bind, get_world. rewrite Hen, Hc.
        apply same_outside_heap_refl.
    - unfold process_event_body, bind, get_world. rewrite Hen.
      apply same_outside_heap_refl. }
  unfold process_event, bind, with_.
  destruct (process_event_body sc event w) as [[[|v]|e] w1]; exact Hbody.
Qed.

(** The running context on an empty report: all eleven fields are
    set. *)
Lemma process_event_enriches_all_witness :
  ∃ w',
    process_event demo_sc 1%positive VNone empty_world
      = (Ok (VRef 1%positive), w')
    ∧ report_field w' 1%positive "user" "id" = Some (VStr "alice")
    ∧ report_field w' 1%positive "tags" "app_name" = Some (VStr "Y")
    ∧ report_field w' 1%positive "extra" "web_url"
      = Some (VStr "http://10.0.0.1:4040").
Proof.
  assert (Hrep : report_ok empty_world 1%positive).
  { split; [by exists ∅|]. intros g _. left.
    unfold lookup2, empty_world, demo_world; simpl.
    rewrite lookup_insert_eq. apply lookup_empty. }
  destruct (process_event_enriches_all demo_sc 1%positive VNone empty_world)
    as (w' & Hrun & Hfields).
  - reflexivity.
  - by exists demo_sc.
  - exact Hrep.
  - repeat (apply Forall_cons_2; [eexists; reflexivity|]). apply Forall_nil_2.
  - exists w'. split; [exact Hrun|]. split_and!.
    + apply (Hfields {| fs_shape := ViaSetdefault; fs_group := "user";
                        fs_key := "id"; fs_read := Ok (VStr "alice") |}
               (VStr "alice")); [|reflexivity].
      apply list_elem_of_here.
    + apply (Hfields {| fs_shape := ViaGetitem; fs_group := "tags";
                        fs_key := "app_name"; fs_read := Ok (VStr "Y") |}
               (VStr "Y")); [|reflexivity].
      do 6 apply list_elem_of_further. apply list_elem_of_here.
    + apply (Hfields {| fs_shape := ViaSetdefault; fs_group := "extra";
                        fs_key := "web_url";
                        fs_read := Ok (VStr "http://10.0.0.1:4040") |}
               (VStr "http://10.0.0.1:4040")); [|reflexivity].
      do 10 apply list_elem_of_further. apply list_elem_of_here.
Defined.

(** ** The event processor on a malformed report *)

Lemma keeps_lists_bind {A B} (m : M A) (k : A → M B) :
  keeps_lists m → (∀ a, keeps_lists (k a)) → keeps_lists (bind m k).
Proof.
  intros Hm Hk w l xs Hl. unfold bind. specialize (Hm w l xs Hl).
  destruct (m w) as [[a|e] w1]; simpl in *; [by apply Hk | exact Hm].
Qed.

Lemma keeps_lists_same_world {A} (m : M A) :
  (∀ w, snd (m w) = w) → keeps_lists m.
Proof. intros Hm w l xs Hl. by rewrite Hm. Qed.

Lemma keeps_lists_new_dict : keeps_lists new_dict.
Proof.
  intros w l xs Hl. unfold new_dict; simpl.
  rewrite lookup_insert_ne; [done|]. apply fresh_loc_ne; eauto.
Qed.

Lemma keeps_lists_dict_setdefault (l : loc) (k : string) (v : val) :
  keeps_lists (dict_setdefault l k v).
Proof.
  intros w l' xs Hl'. unfold dict_setdefault, bind, get_world.
  destruct (heap w !! l) as [[d|ys]|] eqn:Hl; try done.
  destruct (d !! k); [done|]. simpl.
  rewrite lookup_insert_ne; [done|]. congruence.
Qed.

Lemma keeps_lists_call_setdefault (o : M val) (k : string) (arg : M val) :
  keeps_lists o → keeps_lists arg → keeps_lists (call_setdefault o k arg).
Proof.
  intros Ho Harg. unfold call_setdefault.
  apply keeps_lists_bind; [exact Ho|]. intros o'.
  apply keeps_lists_bind.
  { apply keeps_lists_same_world, getattr_setdefault_same_world. }
  intros f. apply keeps_lists_bind; [exact Harg|]. intros a.
  apply keeps_lists_dict_setdefault.
Qed.

Lemma keeps_lists_run_field_stmt (event : loc) (f : FieldStmt) :
  keeps_lists (run_field_stmt event f).
Proof.
  unfold run_field_stmt. destruct (fs_shape f);
    apply keeps_lists_call_setdefault;
    try (by apply keeps_lists_same_world).
  - apply keeps_lists_call_setdefault;
      [by apply keeps_lists_same_world | apply keeps_lists_new_dict].
  - apply keeps_lists_same_world. intros w. apply getitem_same_world.
Qed.

Lemma not_a_dict_no_setdefault (v : val) (k : string) (read : outcome val)
    (w : World) :
  not_a_dict (heap w) v →
  setdefault_on v k read w = (Raise AttributeError, w).
Proof.
  intros Hv. unfold setdefault_on. rewrite bind_run.
  destruct v as [| | |l]; try reflexivity.
  destruct Hv as [xs Hl].
  rewrite getattr_setdefault_no_dict; [done|].
  intros [d Hd]. congruence.
Qed.

(** A statement whose group is there but is not a dict raises
    [AttributeError] and changes no item of any dict. *)
Lemma run_field_stmt_malformed (event : loc) (f : FieldStmt) (v : val)
    (w : World) :
  is_dict (heap w) event →
  lookup2 (heap w) event (fs_group f) = Some v →
  not_a_dict (heap w) v →
  ∃ w',
    run_field_stmt event f w = (Raise AttributeError, w')
    ∧ ∀ l k, lookup2 (heap w') l k = lookup2 (heap w) l k.
Proof.
  intros [d Hd] Hg Hv.
  assert (Hdg : d !! fs_group f = Some v)
    by (unfold lookup2 in Hg; by rewrite Hd in Hg).
  rewrite run_field_stmt_halves, bind_run. unfold group_of.
  destruct (fs_shape f).
  - rewrite call_setdefault_run. unfold ret.
    rewrite getattr_setdefault_dict by (by exists d).
    unfold new_dict.
    assert (Hne : fresh (dom (heap w)) ≠ event)
      by (apply fresh_loc_ne; eauto).
    rewrite (dict_setdefault_run _ _ _ _ d)
      by (simpl; by rewrite lookup_insert_ne).
    rewrite Hdg.
    eexists. split.
    + apply not_a_dict_no_setdefault.
      destruct v as [| | |l]; try done. destruct Hv as [xs Hl].
      exists xs. simpl. rewrite lookup_insert_ne; [done|].
      apply fresh_loc_ne; eauto.
    + intros l k. apply (writes_only_new_dict [] w). apply not_elem_of_nil.
  - rewrite (getitem_run _ _ _ d Hd), Hdg.
    exists w. split; [by apply not_a_dict_no_setdefault | done].
Qed.

Lemma report_field_same_lookups (w w' : World) (event : loc) (g k : string) :
  (∀ l k, lookup2 (heap w') l k = lookup2 (heap w) l k) →
  report_field w' event g k = report_field w event g k.
Proof.
  intros H. rewrite !report_field_lookup2, H.
  destruct (lookup2 (heap w) event g) as [[| | |l]|]; try done.
Qed.

(** When the report's [user] is there but is not a dict, the first
    statement of the block fails and the block is left: the processor
    returns the report with no item of any dict changed, so no tag and
    no [extra.web_url] is added either, although every read of the
    context may go through. *)
Theorem process_event_malformed_user
    (sc : SparkContext) (event : loc) (hint : val) (w : World) (v : val) :
  integration_enabled w = true →
  is_Some (active_spark_context w) →
  is_dict (heap w) event →
  lookup2 (heap w) event "user" = Some v →
  not_a_dict (heap w) v →
  ∃ w',
    process_event sc event hint w = (Ok (VRef event), w')
    ∧ ∀ l k, lookup2 (heap w') l k = lookup2 (heap w) l k.
Proof.
  intros Hen Hact Hev Hu Hv.
  destruct (run_field_stmt_malformed event
              {| fs_shape := ViaSetdefault; fs_group := "user";
                 fs_key := "id"; fs_read := sparkUser sc |} v w Hev Hu Hv)
    as (w' & Hrun & Hsame).
  exists w'. split; [|exact Hsame].
  apply (process_event_suppresses _ _ _ _ _ AttributeError).
  rewrite process_event_body_stmts by done.
  unfold enrichment_stmts. simpl. rewrite bind_run.
  by rewrite Hrun.
Qed.

Lemma process_event_malformed_user_witness :
  ∃ w',
    process_event demo_sc 1%positive VNone none_user_world
      = (Ok (VRef 1%positive), w')
    ∧ ∀ l k, lookup2 (heap w') l k = lookup2 (heap none_user_world) l k.
Proof.
  apply (process_event_malformed_user demo_sc 1%positive VNone
           none_user_world VNone).
  - reflexivity.
  - by exists demo_sc.
  - by eexists.
  - reflexivity.
  - exact I.
Defined.

(** When the report's [tags] is there but is not a dict (a list of
    pairs, say), enrichment sets [user.id] and stops at the first tag:
    no tag is added, and [extra.web_url], which comes after the tags,
    is not set either. *)
Theorem process_event_malformed_tags
    (sc : SparkContext) (event : loc) (hint : val) (w : World)
    (u v : val) :
  integration_enabled w = true →
  is_Some (active_spark_context w) →
  is_dict (heap w) event →
  group_ok (heap w) event "user" →
  sparkUser sc = Ok u →
  lookup2 (heap w) event "tags" = Some v →
  not_a_dict (heap w) v →
  ∃ w',
    process_event sc event hint w = (Ok (VRef event), w')
    ∧ report_field w' event "user" "id"
      = Some (default u (report_field w event "user" "id"))
    ∧ (∀ k, report_field w' event "tags" k = None)
    ∧ report_field w' event "extra" "web_url"
      = report_field w event "extra" "web_url".
Proof.
  intros Hen Hact Hev Huser Hread Ht Hv.
  set (s1 := {| fs_shape := ViaSetdefault; fs_group := "user";
                fs_key := "id"; fs_read := sparkUser sc |}).
  set (s2 := {| fs_shape := ViaSetdefault; fs_group := "tags";
                fs_key := "executor.id";
                fs_read := conf_get sc "spark.executor.id" |}).
  destruct (run_field_stmt_ok event s1 w u) as (r & w0 & Hrun1 & _ & Hfield);
    [done | done | by intros _ | done | done |].
  pose proof (monotone_run_field_stmt event s1 w) as Hext.
  pose proof (keeps_lists_run_field_stmt event s1 w) as Hlists.
  pose proof (run_field_stmt_frame event s1 w "extra" "web_url") as Hextra.
  rewrite Hrun1 in Hext, Hlists, Hextra. simpl in Hext, Hlists, Hextra.
  assert (Hv0 : not_a_dict (heap w0) v).
  { destruct v as [| | |l]; try done. destruct Hv as [xs Hl].
    exists xs. by apply Hlists. }
  destruct (run_field_stmt_malformed event s2 v w0) as (w' & Hrun2 & Hsame).
  { by eapply is_dict_extends. }
  { by eapply lookup2_extends. }
  { exact Hv0. }
  exists w'. split_and!.
  - apply (process_event_suppresses _ _ _ _ _ AttributeError).
    rewrite process_event_body_stmts by done.
    unfold enrichment_stmts. simpl. fold s1 s2.
    rewrite bind_run, Hrun1, bind_run. by rewrite Hrun2.
  - by rewrite (report_field_same_lookups w0 w').
  - intros k. rewrite report_field_lookup2, Hsame.
    rewrite (lookup2_extends _ _ _ _ _ Hext Ht).
    destruct v as [| | |l]; try done. destruct Hv0 as [xs Hl].
    rewrite Hsame. unfold lookup2. by rewrite Hl.
  - rewrite (report_field_same_lookups w0 w') by done. by apply Hextra.
Qed.

Lemma process_event_malformed_tags_witness :
  ∃ w',
    process_event demo_sc 1%positive VNone list_tags_world
      = (Ok (VRef 1%positive), w')
    ∧ report_field w' 1%positive "user" "id" = Some (VStr "alice")
    ∧ (∀ k, report_field w' 1%positive "tags" k = None)
    ∧ report_field w' 1%positive "extra" "web_url" = None.
Proof.
  apply (process_event_malformed_tags demo_sc 1%positive VNone
           list_tags_world (VStr "alice") (VRef 2%positive)).
  - reflexivity.
  - by exists demo_sc.
  - by eexists.
  - by left.
  - reflexivity.
  - reflexivity.
  - by eexists.
Defined.

(** ** A second pass of the event processor *)

Lemma process_event_world (sc : SparkContext) (event : loc) (hint : val)
    (w : World) :
  snd (process_event sc event hint w) = snd (process_event_body sc event w).
Proof.
  unfold process_event, bind, with_.
  by destruct (process_event_body sc event w) as [[[|v]|e] w1].
Qed.










(** ** Well-formed reports stay well formed *)

Lemma run_field_stmt_keeps_report_ok (event : loc) (f : FieldStmt)
    (w : World) :
  fs_group f ∈ report_groups → fs_key f ∉ report_groups →
  report_ok w event →
  report_ok (snd (run_field_stmt event f w)) event.
Proof.
  intros Hg Hk [Hev Hok].
  assert (Hgk : fs_group f ≠ fs_key f) by (intros Heq; by rewrite Heq in Hg).
  pose proof (monotone_run_field_stmt event f w) as Hext.
  pose proof (writes_only_run_field_stmt event f w) as Hw.
  pose proof (run_field_stmt_entry event f w Hgk) as Hentry.
  split; [by eapply is_dict_extends|].
  intros g Hin.
  apply (group_ok_kept (heap w) _ event [fs_group f; fs_key f] (fs_group f));
    try done.
  - destruct (decide (g = fs_group f)); [by left | right].
    rewrite !not_elem_of_cons. split_and!; [done| |apply not_elem_of_nil].
    intros ->. done.
  - by apply Hok.
Qed.

Lemma run_field_stmts_keep_report_ok {A} (event : loc) (fs : list FieldStmt)
    (a : A) :
  Forall (λ f, fs_group f ∈ report_groups ∧ fs_key f ∉ report_groups) fs →
  ∀ w, report_ok w event →
       report_ok (snd (run_field_stmts event fs (ret a) w)) event.
Proof.
  induction 1 as [|f fs [Hg Hk] _ IH]; intros w Hrep; [done|].
  simpl. rewrite bind_run.
  pose proof (run_field_stmt_keeps_report_ok event f w Hg Hk Hrep) as Hrep0.
  destruct (run_field_stmt event f w) as [[r|e] w0]; simpl in *;
    [by apply IH | done].
Qed.

(** Enrichment keeps a report well formed: after the event processor,
    however its reads ended, the report is still a dict, and its
    [user], [tags] and [extra] are still missing or dicts. *)
Theorem process_event_keeps_report_ok
    (sc : SparkContext) (event : loc) (hint : val) (w : World) :
  report_ok w event →
  report_ok (snd (process_event sc event hint w)) event.
Proof.
  intros Hrep. rewrite process_event_world.
  destruct (integration_enabled w) eqn:Hen.
  2:{ unfold process_event_body, bind, get_world. by rewrite Hen. }
  destruct (active_spark_context w) as [c|] eqn:Hc.
  2:{ unfold process_event_body, bind, get_world. by rewrite Hen, Hc. }
  rewrite process_event_body_stmts by eauto.
  apply run_field_stmts_keep_report_ok; [|exact Hrep].
  apply enrichment_stmts_wf.
Qed.

Lemma process_event_keeps_report_ok_witness :
  report_ok (snd (process_event torn_sc 1%positive VNone empty_world))
    1%positive.
Proof.
  apply (process_event_keeps_report_ok torn_sc 1%positive VNone empty_world).
  split; [by exists ∅|]. intros g _. left.
  unfold lookup2, empty_world, demo_world; simpl.
  rewrite lookup_insert_eq. apply lookup_empty.
Defined.

(** ** Patching [SparkContext._do_init] and setting up *)

Section DoInitProperties.
Variable original_do_init : SparkContext → list val → M val.

(** With the integration disabled the patch is transparent, however
    often it was applied: a call of the patched initialiser is a call
    of the original one, and nothing is activated. *)
Theorem patched_do_init_disabled
    (n : nat) (self : SparkContext) (args : list val) (w : World) :
  integration_enabled w = false →
  patched_do_init original_do_init n self args w
  = original_do_init self args w.
Proof.
  intros Hen. induction n as [|n IH]; [reflexivity|].
  simpl. unfold _sentry_patched_spark_context_init,
    ensure_integration_enabled.
  rewrite bind_run. unfold get_world. rewrite Hen. exact IH.
Qed.

(** Each layer of the patch runs one activation, after the layers
    below it. *)
Lemma patched_do_init_layers
    (n : nat) (self : SparkContext) (args : list val) (w w0 : World)
    (rv : val) :
  integration_enabled w = true →
  original_do_init self args w = (Ok rv, w0) →
  ensure_callback_server_started self = Ok tt →
  addSparkListener self = Ok tt →
  propagation_ok w0 →
  ∃ w',
    patched_do_init original_do_init n self args w = (Ok rv, w')
    ∧ spark_listeners w'
      = (spark_listeners w0 ++ replicate n (sc_id self, SentryListener))%list
    ∧ event_processors w'
      = (event_processors w0 ++ replicate n (process_event_closure self))%list
    ∧ breadcrumbs w' = breadcrumbs w0
    ∧ active_spark_context w' = active_spark_context w0.
Proof.
  intros Hen Horig H1 H2 Hp. induction n as [|n IH].
  { exists w0. simpl. rewrite !app_nil_r. by split_and!. }
  destruct IH as (w1 & Hrun & Hls & Hps & Hbs & Hact).
  assert (Hp1 : propagation_ok w1)
    by (unfold propagation_ok in *; by rewrite Hact).
  destruct (_activate_integration_adds_one self w1 H1 H2 Hp1)
    as (w2 & Hrun2 & Hls2 & Hps2 & Hbs2 & Hact2).
  exists w2. split_and!.
  - simpl. unfold _sentry_patched_spark_context_init,
      ensure_integration_enabled.
    rewrite bind_run. unfold get_world. rewrite Hen.
    rewrite bind_run, Hrun, bind_run, Hrun2. reflexivity.
  - by rewrite Hls2, Hls, replicate_S_end, app_assoc.
  - by rewrite Hps2, Hps, replicate_S_end, app_assoc.
  - congruence.
  - congruence.
Qed.

(** The patch stacks.  When [_do_init] was patched [n] times and the
    original initialiser returns, a new context is activated [n] times:
    [n] listeners on its bus, [n] event processors on the scope, and the
    original's return value handed back. *)
Theorem patched_do_init_activates_per_patch
    (n : nat) (self : SparkContext) (args : list val) (w w0 : World)
    (rv : val) :
  integration_enabled w = true →
  original_do_init self args w = (Ok rv, w0) →
  ensure_callback_server_started self = Ok tt →
  addSparkListener self = Ok tt →
  propagation_ok w0 →
  ∃ w',
    patched_do_init original_do_init n self args w = (Ok rv, w')
    ∧ listeners_of self w'
      = (listeners_of self w0 ++ replicate n SentryListener)%list
    ∧ event_processors w'
      = (event_processors w0 ++ replicate n (process_event_closure self))%list.
Proof.
  intros Hen Horig H1 H2 Hp.
  destruct (patched_do_init_layers n self args w w0 rv Hen Horig H1 H2 Hp)
    as (w' & Hrun & Hls & Hps & _ & _).
  exists w'. split_and!; [exact Hrun | | exact Hps].
  unfold listeners_of. rewrite Hls, filter_app, fmap_app. f_equal.
  clear. induction n as [|n IH]; [done|].
  rewrite !replicate_S, filter_cons_True by done.
  rewrite fmap_cons. by f_equal.
Qed.

(** Setting up with a running context and then starting a new one:
    the running context is activated once, at once; [_do_init] is
    patched once; and the new context is activated once when its
    initialiser returns. *)
Theorem _setup_sentry_tracing_then_new_context
    (d : Driver) (sc0 : SparkContext) :
  do_init_patches d = 0 →
  active_spark_context (driver_world d) = Some sc0 →
  ensure_callback_server_started sc0 = Ok tt →
  addSparkListener sc0 = Ok tt →
  propagation_ok (driver_world d) →
  ∃ d1,
    _setup_sentry_tracing d = (Ok tt, d1)
    ∧ do_init_patches d1 = 1
    ∧ listeners_of sc0 (driver_world d1)
      = (listeners_of sc0 (driver_world d) ++ [SentryListener])%list
    ∧ event_processors (driver_world d1)
      = (event_processors (driver_world d) ++ [process_event_closure sc0])%list
    ∧ ∀ self args rv w0,
        integration_enabled (driver_world d1) = true →
        original_do_init self args (driver_world d1) = (Ok rv, w0) →
        ensure_callback_server_started self = Ok tt →
        addSparkListener self = Ok tt →
        propagation_ok w0 →
        ∃ d2,
          SparkContext_do_init original_do_init self args d1 = (Ok rv, d2)
          ∧ listeners_of self (driver_world d2)
            = (listeners_of self w0 ++ [SentryListener])%list
          ∧ event_processors (driver_world d2)
            = (event_processors w0 ++ [process_event_closure self])%list.
Proof.
  intros Hn Hsc H1 H2 Hp.
  destruct (_activate_integration_adds_one sc0 (driver_world d) H1 H2 Hp)
    as (w1 & Hrun & Hls & Hps & _ & _).
  exists (_patch_spark_context_init (with_world w1 d)). split_and!.
  - unfold _setup_sentry_tracing. simpl. by rewrite Hsc, Hrun.
  - simpl. by rewrite Hn.
  - simpl. by apply listeners_of_push.
  - exact Hps.
  - intros self args rv w0 Hen Horig G1 G2 Hp0. simpl in Hen, Horig.
    destruct (patched_do_init_layers 1 self args w1 w0 rv Hen Horig G1 G2 Hp0)
      as (w2 & Hrun2 & Hls2 & Hps2 & _ & _).
    eexists. split_and!.
    + unfold SparkContext_do_init. simpl do_init_patches. rewrite Hn.
      simpl driver_world. by rewrite Hrun2.
    + simpl. by apply listeners_of_push.
    + exact Hps2.
Qed.
End DoInitProperties.

(** When the activation of the running context fails, the setup stops
    there: the exception leaves [_setup_sentry_tracing] and [_do_init]
    is not patched, so contexts started later are not instrumented. *)
Theorem _setup_sentry_tracing_activation_fails
    (d : Driver) (sc : SparkContext) (e : exn) (w' : World) :
  active_spark_context (driver_world d) = Some sc →
  _activate_integration sc (driver_world d) = (Raise e, w') →
  _setup_sentry_tracing d = (Raise e, with_world w' d)
  ∧ do_init_patches (snd (_setup_sentry_tracing d)) = do_init_patches d.
Proof.
  intros Hsc Hact. unfold _setup_sentry_tracing. simpl.
  by rewrite Hsc, Hact.
Qed.

Section SetupWhileIdle.
Variable original_do_init : SparkContext → list val → M val.

(** The usual start: the setup runs before any context exists.  It
    changes nothing but the patch, and the first context started
    afterwards is activated once when its initialiser returns. *)
Theorem _setup_sentry_tracing_idle_then_new_context (d : Driver) :
  do_init_patches d = 0 →
  active_spark_context (driver_world d) = None →
  _setup_sentry_tracing d = (Ok tt, _patch_spark_context_init d)
  ∧ ∀ self args rv w0,
      integration_enabled (driver_world d) = true →
      original_do_init self args (driver_world d) = (Ok rv, w0) →
      ensure_callback_server_started self = Ok tt →
      addSparkListener self = Ok tt →
      propagation_ok w0 →
      ∃ d2,
        SparkContext_do_init original_do_init self args
          (_patch_spark_context_init d) = (Ok rv, d2)
        ∧ listeners_of self (driver_world d2)
          = (listeners_of self w0 ++ [SentryListener])%list
        ∧ event_processors (driver_world d2)
          = (event_processors w0 ++ [process_event_closure self])%list.
Proof.
  intros Hn Hsc. split.
  { unfold _setup_sentry_tracing. simpl. rewrite Hsc. by destruct d. }
  intros self args rv w0 Hen Horig G1 G2 Hp0.
  destruct (patched_do_init_layers original_do_init 1 self args
              (driver_world d) w0 rv Hen Horig G1 G2 Hp0)
    as (w2 & Hrun2 & Hls2 & Hps2 & _ & _).
  eexists. split_and!.
  - unfold SparkContext_do_init. simpl do_init_patches. rewrite Hn.
    simpl driver_world. by rewrite Hrun2.
  - simpl. by apply listeners_of_push.
  - exact Hps2.
Qed.
End SetupWhileIdle.

(** *** Instances *)

Lemma patched_do_init_disabled_witness :
  patched_do_init demo_init_ok 2 demo_sc [] disabled_world
  = (Ok VNone, disabled_world).
Proof.
  exact (patched_do_init_disabled demo_init_ok 2 demo_sc [] disabled_world
           eq_refl).
Defined.

Lemma demo_propagation_ok : propagation_ok empty_world.
Proof.
  unfold propagation_ok; simpl. split; [|split]; [eexists..|]; reflexivity.
Defined.

Lemma patched_do_init_activates_per_patch_witness :
  ∃ w',
    patched_do_init demo_init_ok 2 demo_sc [] empty_world = (Ok VNone, w')
    ∧ listeners_of demo_sc w' = [SentryListener; SentryListener]
    ∧ event_processors w'
      = [process_event_closure demo_sc; process_event_closure demo_sc].
Proof.
  exact (patched_do_init_activates_per_patch demo_init_ok 2 demo_sc []
           empty_world empty_world VNone eq_refl eq_refl eq_refl eq_refl
           demo_propagation_ok).
Defined.

Lemma _setup_sentry_tracing_then_new_context_witness :
  ∃ d1,
    _setup_sentry_tracing demo_driver = (Ok tt, d1)
    ∧ do_init_patches d1 = 1
    ∧ listeners_of demo_sc (driver_world d1) = [SentryListener]
    ∧ event_processors (driver_world d1) = [process_event_closure demo_sc].
Proof.
  destruct (_setup_sentry_tracing_then_new_context demo_init_ok demo_driver
              demo_sc eq_refl eq_refl eq_refl eq_refl demo_propagation_ok)
    as (d1 & Hrun & Hn & Hls & Hps & _).
  exists d1. by split_and!.
Defined.

Lemma _setup_sentry_tracing_activation_fails_witness :
  _setup_sentry_tracing no_id_driver
  = (Raise (Py4JJavaError "java.lang.IllegalStateException"),
     with_world (snd (_activate_integration no_id_sc no_id_world))
       no_id_driver)
  ∧ do_init_patches (snd (_setup_sentry_tracing no_id_driver)) = 0.
Proof.
  exact (_setup_sentry_tracing_activation_fails no_id_driver no_id_sc
           (Py4JJavaError "java.lang.IllegalStateException")
           (snd (_activate_integration no_id_sc no_id_world))
           eq_refl eq_refl).
Defined.

Lemma _setup_sentry_tracing_idle_then_new_context_witness :
  _setup_sentry_tracing idle_driver
  = (Ok tt, _patch_spark_context_init idle_driver)
  ∧ ∃ d2,
      SparkContext_do_init demo_init_ok demo_sc []
        (_patch_spark_context_init idle_driver) = (Ok VNone, d2)
      ∧ listeners_of demo_sc (driver_world d2) = [SentryListener]
      ∧ event_processors (driver_world d2) = [process_event_closure demo_sc].
Proof.
  destruct (_setup_sentry_tracing_idle_then_new_context demo_init_ok
              idle_driver eq_refl eq_refl) as [Hsetup Hnew].
  split; [exact Hsetup|].
  exact (Hnew demo_sc [] VNone idle_world eq_refl eq_refl eq_refl eq_refl I).
Defined.
